(** * GEOMI map overlay engine: slope classification, grid tessellation,
      overlay synchronisation, rectangle drawing and the range table.

    Shallow embedding of
      - [frontend/src/components/MapView.jsx] (slope-cells effect, rectangle
        drawing effect), and
      - the [SlopeMapPanel] component (range table handlers).

    JavaScript numbers are modelled by [number]: rationals extended with
    [NaN] and the two infinities.  Comparisons and the special values follow
    IEEE-754 as JavaScript has them, and the finite results of [+], [-], [*]
    and [/] are rounded to the nearest binary64 value, ties to even,
    overflowing to an infinity ([JS.round64]).  The sign of zero is not
    modelled. *)

From Stdlib Require Import Ascii QArith Qround Qabs Qminmax Qreduction Qpower Lqa.
From stdpp Require Import gmap strings list pretty.

Local Open Scope string_scope.
Local Open Scope list_scope.

(* ===================================================================== *)
(** ** JavaScript values *)
(* ===================================================================== *)

Inductive number : Type :=
  | NaN
  | PInf
  | NInf
  | Num (q : Q).

Module JS.

(** Relational comparison of two numbers; [None] when either is [NaN]
    (every comparison is then false). *)
Definition compare (a b : number) : option comparison :=
  match a, b with
  | NaN, _ | _, NaN => None
  | PInf, PInf => Some Eq
  | PInf, _ => Some Gt
  | _, PInf => Some Lt
  | NInf, NInf => Some Eq
  | NInf, _ => Some Lt
  | _, NInf => Some Gt
  | Num p, Num q => Some (p ?= q)%Q
  end.

(** [a < b] *)
Definition lt (a b : number) : bool :=
  match compare a b with Some Lt => true | _ => false end.

(** [a > b] *)
Definition gt (a b : number) : bool :=
  match compare a b with Some Gt => true | _ => false end.

(** [a >= b] *)
Definition ge (a b : number) : bool :=
  match compare a b with Some Gt | Some Eq => true | _ => false end.

(** [a <= b] *)
Definition le (a b : number) : bool :=
  match compare a b with Some Lt | Some Eq => true | _ => false end.

(** Sign of a number, [None] for [NaN]. *)
Definition sign (a : number) : option comparison := compare a (Num 0).

(** Unary minus. *)
Definition neg (a : number) : number :=
  match a with
  | NaN => NaN
  | PInf => NInf
  | NInf => PInf
  | Num q => Num (- q)
  end.

(** [2^e] *)
Definition pow2 (e : Z) : Q := Qpower 2 e.

(** The binary exponent of a positive rational: the [e] with
    [2^e <= a < 2^(e+1)].  The difference of the bit lengths of numerator
    and denominator is [e] or [e + 1]; one comparison decides. *)
Definition exponent (a : Q) : Z :=
  let e := (Z.log2 (Qnum a) - Z.log2 (Zpos (Qden a)))%Z in
  if Qle_bool (pow2 e) a then e else (e - 1)%Z.

(** The integer nearest to a non-negative rational, ties to the even one. *)
Definition nearest_even (m : Q) : Z :=
  let f := Qfloor m in
  match (m - inject_Z f ?= 1 # 2)%Q with
  | Lt => f
  | Gt => (f + 1)%Z
  | Eq => if Z.even f then f else (f + 1)%Z
  end.

(** Rounding of a positive rational to binary64: 53 significant bits, the
    exponent not below that of the subnormal numbers, and an infinity when
    the rounded value reaches [2^1024]. *)
Definition round_pos (a : Q) : number :=
  let e := Z.max (exponent a) (-1022) in
  let u := pow2 (e - 52) in
  let r := (inject_Z (nearest_even (a / u)) * u)%Q in
  if Qle_bool (pow2 1024) r then PInf else Num (Qred r).

(** Rounding to the nearest binary64 value, ties to even: what every
    arithmetic operation does to its exact result. *)
Definition round64 (q : Q) : number :=
  let q := Qred q in
  match Qnum q with
  | Z0 => Num 0
  | Zpos _ => round_pos q
  | Zneg _ => neg (round_pos (- q))
  end.
Arguments round64 : simpl never.

(** [a + b] *)
Definition add (a b : number) : number :=
  match a, b with
  | NaN, _ | _, NaN => NaN
  | PInf, NInf | NInf, PInf => NaN
  | PInf, _ | _, PInf => PInf
  | NInf, _ | _, NInf => NInf
  | Num p, Num q => round64 (p + q)
  end.

(** [a - b] *)
Definition sub (a b : number) : number := add a (neg b).

(** An infinity carrying the sign of a product or quotient; [Eq] stands
    for a zero factor, where the result is [NaN]. *)
Definition signed_inf (s : comparison) : number :=
  match s with Gt => PInf | Lt => NInf | Eq => NaN end.

Definition sign_mul (s t : comparison) : comparison :=
  match s, t with
  | Eq, _ | _, Eq => Eq
  | Gt, Gt | Lt, Lt => Gt
  | _, _ => Lt
  end.

(** [a * b] *)
Definition mul (a b : number) : number :=
  match a, b with
  | Num p, Num q => round64 (p * q)
  | _, _ =>
      match sign a, sign b with
      | Some s, Some t => signed_inf (sign_mul s t)
      | _, _ => NaN
      end
  end.

(** [a / b].  A zero divisor is the positive zero. *)
Definition div (a b : number) : number :=
  match a, b with
  | NaN, _ | _, NaN => NaN
  | Num p, Num q =>
      if Qeq_bool q 0 then signed_inf (p ?= 0)%Q else round64 (p / q)
  | Num _, _ => Num 0
  | _, Num q =>
      match sign a with
      | Some s => signed_inf (sign_mul s (if Qeq_bool q 0 then Gt else (q ?= 0)%Q))
      | None => NaN
      end
  | _, _ => NaN
  end.

(** [Math.abs] *)
Definition abs (a : number) : number :=
  match a with
  | NaN => NaN
  | PInf | NInf => PInf
  | Num q => Num (Qabs q)
  end.

(** [Math.min(a, b)]: [NaN] as soon as one argument is. *)
Definition min (a b : number) : number :=
  match compare a b with
  | None => NaN
  | Some Gt => b
  | Some _ => a
  end.

(** [Math.max(a, b)] *)
Definition max (a b : number) : number :=
  match compare a b with
  | None => NaN
  | Some Lt => b
  | Some _ => a
  end.

(** [Math.round]: the nearest integer, ties towards +infinity. *)
Definition round (a : number) : number :=
  match a with
  | Num q => Num (inject_Z (Qfloor (q + (1 # 2))))
  | _ => a
  end.

(** Truthiness of a number: [0] and [NaN] are falsy. *)
Definition truthy (a : number) : bool :=
  match a with
  | NaN => false
  | Num q => negb (Qeq_bool q 0)
  | _ => true
  end.

(** A possibly [undefined] number used as a boolean. *)
Definition truthy_opt (a : option number) : bool :=
  match a with Some x => truthy x | None => false end.

(** [a || d] for a possibly [undefined] number [a]. *)
Definition num_or (a : option number) (d : number) : number :=
  match a with
  | Some x => if truthy x then x else d
  | None => d
  end.

(** Truthiness of a string: only the empty string is falsy. *)
Definition truthy_str (s : string) : bool :=
  match s with EmptyString => false | _ => true end.

(** [a || d] for a possibly [undefined] string [a]. *)
Definition str_or (a : option string) (d : string) : string :=
  match a with
  | Some s => if truthy_str s then s else d
  | None => d
  end.

(** A number coming from an array length or index. *)
Definition of_nat (n : nat) : number := Num (inject_Z (Z.of_nat n)).

(** Numbers that denote the same value ([Q] is not canonical). *)
Definition same (a b : number) : Prop :=
  match a, b with
  | NaN, NaN | PInf, PInf | NInf, NInf => True
  | Num p, Num q => (p == q)%Q
  | _, _ => False
  end.

(** Outcome of running code that may throw. *)
Inductive result (A : Type) : Type :=
  | Ok (a : A)
  | Throw (e : string).
Arguments Ok {A} a.
Arguments Throw {A} e.

End JS.

#[global] Instance result_ret : MRet JS.result := fun _ a => JS.Ok a.
#[global] Instance result_bind : MBind JS.result := fun _ _ k m =>
  match m with
  | JS.Ok a => k a
  | JS.Throw e => JS.Throw e
  end.

(* ===================================================================== *)
(** ** Data model *)
(* ===================================================================== *)

(** A classification range [{ min, max, color, label }]. *)
Module Range.
Record t : Type := mk { min : number; max : number; color : string; label : string }.
End Range.

Definition DEFAULT_RANGES : list Range.t :=
  [ Range.mk (Num 0) (Num 3) "#38a800" "0 – 3%";
    Range.mk (Num 3) (Num 7) "#267300" "3 – 7%";
    Range.mk (Num 7) (Num 12) "#a8a800" "7 – 12%";
    Range.mk (Num 12) (Num 25) "#005500" "12 – 25%";
    Range.mk (Num 25) (Num 50) "#ffff00" "25 – 50%";
    Range.mk (Num 50) (Num 75) "#ff8c00" "50 – 75%";
    Range.mk (Num 75) (Num 999) "#ff0000" "> 75%" ].

(** A GeoJSON polygon feature as the slope effect builds it. *)
Module Feature.
Record geometry : Type :=
  mkGeometry { gtype : string; coordinates : list (list (number * number)) }.
Record properties : Type :=
  mkProperties { slope : number; color : string }.
Record t : Type :=
  mk { type : string; geom : geometry; props : properties }.
End Feature.

(** One row of [slopes_percent]: an array of cell values, or [null] /
    [undefined] in a malformed payload. *)
Inductive row : Type :=
  | Cells (vals : list number)
  | NullRow.

(** The [slopeData] payload of the grid provider. *)
Record SlopeData : Type := mkSlopeData {
  slopes_percent : option (list row);
  slopes : option (list row);
  bbox : option string;
  grid_size : option number
}.

(* ===================================================================== *)
(** ** SlopeClassifier: the colour of one cell (MapView.jsx, lines 209-220) *)
(* ===================================================================== *)

(** The [for (const rng of ranges)] walk: the first range with
    [val >= rng.min && val < rng.max] sets [fillColor] and breaks. *)
Fixpoint walk (val : number) (ranges : list Range.t) (fillColor : string) : string :=
  match ranges with
  | [] => fillColor
  | rng :: rest =>
      if JS.ge val (Range.min rng) && JS.lt val (Range.max rng)
      then Range.color rng
      else walk val rest fillColor
  end.

(** [val >= ranges[ranges.length - 1]?.min]; comparing with [undefined]
    is false. *)
Definition above_last (val : number) (ranges : list Range.t) : bool :=
  match last ranges with
  | Some l => JS.ge val (Range.min l)
  | None => false
  end.

Definition classify (val : number) (ranges : list Range.t) : string :=
  let fillColor := walk val ranges "#888888" in
  if above_last val ranges
  then JS.str_or (Range.color <$> last ranges) fillColor
  else fillColor.

(* ===================================================================== *)
(** ** GridTessellator (MapView.jsx, lines 194-244) *)
(* ===================================================================== *)

(** [s.split(',')] *)
Fixpoint split_comma (s : string) : list string :=
  match s with
  | EmptyString => [EmptyString]
  | String c rest =>
      if Ascii.eqb c ","%char then EmptyString :: split_comma rest
      else match split_comma rest with
           | h :: t => String c h :: t
           | [] => [String c EmptyString]
           end
  end.

(** Array destructuring of numbers that only flow into arithmetic: a
    missing element is [undefined], which arithmetic turns into [NaN]. *)
Definition item (l : list number) (i : nat) : number := default NaN (l !! i).

(** [Math.round(val * 10) / 10] *)
Definition round1 (val : number) : number :=
  JS.div (JS.round (JS.mul val (Num 10))) (Num 10).

(** The body of the inner loop for the cell at row [r], column [c]. *)
Definition cell (minx miny dx dy : number) (ranges : list Range.t)
    (r c : nat) (val : number) : Feature.t :=
  let fillColor := classify val ranges in
  let x0 := JS.add minx (JS.mul (JS.of_nat c) dx) in
  let y0 := JS.add miny (JS.mul (JS.of_nat r) dy) in
  Feature.mk "Feature"
    (Feature.mkGeometry "Polygon"
       [[ (x0, y0);
          (JS.add x0 dx, y0);
          (JS.add x0 dx, JS.add y0 dy);
          (x0, JS.add y0 dy);
          (x0, y0) ]])
    (Feature.mkProperties (round1 val) fillColor).

(** The inner loop over [c < slopeGrid[r].length]. *)
Definition row_cells (minx miny dx dy : number) (ranges : list Range.t)
    (r : nat) (vals : list number) : list Feature.t :=
  imap (cell minx miny dx dy ranges r) vals.

(** The outer loop, from row [r] on.  Reading [.length] of a row that is
    [null] or [undefined] throws a TypeError. *)
Fixpoint rows_from (minx miny dx dy : number) (ranges : list Range.t)
    (r : nat) (slopeGrid : list row) : JS.result (list Feature.t) :=
  match slopeGrid with
  | [] => JS.Ok []
  | NullRow :: _ => JS.Throw "TypeError"
  | Cells vals :: rest =>
      features ← rows_from minx miny dx dy ranges (S r) rest;
      JS.Ok (row_cells minx miny dx dy ranges r vals ++ features)
  end.

(* ===================================================================== *)
(** ** The rendering surface *)
(* ===================================================================== *)

(** The map object of the MapLibre GL library, which is not part of the
    repository: a store of named sources, an ordered list of layers and the
    registered listeners, with the effect of each call the component makes. *)

Record FeatureCollection : Type :=
  mkFC { fc_type : string; features : list Feature.t }.

Inductive paint_value : Type :=
  | PStr (s : string)
  | PNum (q : Q)
  | PExpr (e : list string).

Module Layer.
Record t : Type :=
  mk { id : string; type : string; source : string;
       paint : gmap string paint_value }.

Definition set_paint (name : string) (value : paint_value) (l : t) : t :=
  mk (id l) (type l) (source l) (<[name := value]> (paint l)).
End Layer.

Inductive source : Type :=
  | Raster
  | GeoJSON (data : FeatureCollection).

(** The three listeners the slope effect registers. *)
Inductive handler : Type :=
  | SlopePopup
  | CursorPointer
  | CursorReset.

Module Listener.
Record t : Type := mk { event : string; layer : string; run : handler }.
End Listener.

Module MapGL.
Record t : Type :=
  mk { sources : gmap string source;
       layers : list Layer.t;
       listeners : list Listener.t }.

Definition has_id (id : string) (l : Layer.t) : bool :=
  bool_decide (Layer.id l = id).

Definition uses (src : string) (l : Layer.t) : bool :=
  bool_decide (Layer.source l = src).

Definition getSource (id : string) (m : t) : option source := sources m !! id.

Definition getLayer (id : string) (m : t) : option Layer.t :=
  List.find (has_id id) (layers m).

(** [map.addSource(id, spec)] throws when the id is taken. *)
Definition addSource (id : string) (src : source) (m : t) : JS.result t :=
  match sources m !! id with
  | Some _ => JS.Throw "Error"
  | None => JS.Ok (mk (<[id := src]> (sources m)) (layers m) (listeners m))
  end.

(** [source.setData(fc)]; only GeoJSON sources have the method. *)
Definition setData (id : string) (fc : FeatureCollection) (m : t) : JS.result t :=
  match sources m !! id with
  | Some (GeoJSON _) =>
      JS.Ok (mk (<[id := GeoJSON fc]> (sources m)) (layers m) (listeners m))
  | _ => JS.Throw "TypeError"
  end.

(** [map.addLayer(layer)]: a taken id or an unknown source fires an
    error event and adds nothing. *)
Definition addLayer (l : Layer.t) (m : t) : t :=
  if existsb (has_id (Layer.id l)) (layers m) then m
  else match sources m !! Layer.source l with
       | None => m
       | Some _ => mk (sources m) (layers m ++ [l]) (listeners m)
       end.

(** [map.removeLayer(id)] *)
Definition removeLayer (id : string) (m : t) : t :=
  mk (sources m) (List.filter (fun l => negb (has_id id l)) (layers m)) (listeners m).

(** [map.removeSource(id)]: refused while a layer still uses the source. *)
Definition removeSource (id : string) (m : t) : t :=
  if existsb (uses id) (layers m) then m
  else mk (delete id (sources m)) (layers m) (listeners m).

(** [map.setPaintProperty(layerId, name, value)]: an unknown layer fires
    an error event and changes nothing. *)
Definition setPaintProperty (id name : string) (value : paint_value) (m : t) : t :=
  mk (sources m)
     (List.map (fun l => if has_id id l then Layer.set_paint name value l else l)
               (layers m))
     (listeners m).

(** [map.on(event, layerId, handler)] *)
Definition on (event layer : string) (h : handler) (m : t) : t :=
  mk (sources m) (layers m) (listeners m ++ [Listener.mk event layer h]).

(** The style the component creates the map with: two raster sources and
    their two layers, nothing registered yet. *)
Definition initial : t :=
  mk (<["carto-tiles" := Raster]> (<["topo-tiles" := Raster]> ∅))
     [ Layer.mk "base-tiles" "raster" "carto-tiles" ∅;
       Layer.mk "topo-tiles" "raster" "topo-tiles" ∅ ]
     [].
End MapGL.

(** [arr.filter((_, i) => keep(i))], scanning from index [i]. *)
Fixpoint filter_index {A} (keep : nat -> bool) (i : nat) (arr : list A) : list A :=
  match arr with
  | [] => []
  | x :: rest =>
      if keep i then x :: filter_index keep (S i) rest
      else filter_index keep (S i) rest
  end.

(** A geographic point as [map.unproject] returns it. *)
Record LngLat : Type := mkLngLat { lng : number; lat : number }.

(** The part of a mouse event the drawing handlers read. *)
Record MouseEvent : Type := mkMouseEvent { offsetX : number; offsetY : number }.

(** What a range-table handler does with the table.  A write at an index
    past the end of the copied array grows it: [holes] empty slots, then
    an object holding only the properties the handler wrote. *)
Inductive update : Type :=
  | Changed (updated : list Range.t)
  | NotCalled
  | Grown (updated : list Range.t) (holes : nat)
          (min : option number) (color label : option string).

(* ===================================================================== *)
(** ** OverlaySyncer: the slope-cells branch (MapView.jsx, lines 186-281) *)
(* ===================================================================== *)

Definition slope_fill_layer : Layer.t :=
  Layer.mk "slope-cells" "fill" "slope-cells"
    (<["fill-color" := PExpr ["get"; "color"]]>
       (<["fill-opacity" := PNum (7 # 10)]> ∅)).

Definition slope_outline_layer : Layer.t :=
  Layer.mk "slope-cells-outline" "line" "slope-cells"
    (<["line-color" := PStr "rgba(0,0,0,0.1)"]>
       (<["line-width" := PNum (3 # 10)]> ∅)).

(** Lines 246-281. *)
Definition upsert_slope_cells (fc : FeatureCollection) (map : MapGL.t)
    : JS.result MapGL.t :=
  match MapGL.getSource "slope-cells" map with
  | Some _ =>
      map ← MapGL.setData "slope-cells" fc map;
      JS.Ok (MapGL.setPaintProperty "slope-cells" "fill-color"
               (PExpr ["get"; "color"]) map)
  | None =>
      map ← MapGL.addSource "slope-cells" (GeoJSON fc) map;
      let map := MapGL.addLayer slope_fill_layer map in
      let map := MapGL.addLayer slope_outline_layer map in
      let map := MapGL.on "click" "slope-cells" SlopePopup map in
      let map := MapGL.on "mouseenter" "slope-cells" CursorPointer map in
      let map := MapGL.on "mouseleave" "slope-cells" CursorReset map in
      JS.Ok map
  end.

(** Lines 188-190: the layers and the source are dropped when the data
    is removed. *)
Definition clear_slope_cells (map : MapGL.t) : MapGL.t :=
  let map := if MapGL.getLayer "slope-cells" map is Some _
             then MapGL.removeLayer "slope-cells" map else map in
  let map := if MapGL.getLayer "slope-cells-outline" map is Some _
             then MapGL.removeLayer "slope-cells-outline" map else map in
  if MapGL.getSource "slope-cells" map is Some _
  then MapGL.removeSource "slope-cells" map else map.

Section Host.

(** Conversions supplied by the JavaScript host. *)
Variable Number : string -> number.        (* Number(s) *)
Variable parseFloat : string -> number.    (* parseFloat(s) *)
Variable toString : number -> string.      (* `${x}` *)
Variable unproject : number * number -> LngLat.   (* map.unproject([x, y]) *)

(** [bboxStr.split(',').map(Number)] *)
Definition parse_bbox (bboxStr : string) : list number :=
  Number <$> split_comma bboxStr.

(** Lines 198-244: the feature array built from a grid, a bbox string,
    the declared size and the range table. *)
Definition tessellate (slopeGrid : list row) (bboxStr : string)
    (grid_size : option number) (slopeRanges : option (list Range.t))
    : JS.result (list Feature.t) :=
  let b := parse_bbox bboxStr in
  let minx := item b 0 in
  let miny := item b 1 in
  let maxx := item b 2 in
  let maxy := item b 3 in
  let n := JS.num_or grid_size (JS.of_nat (length slopeGrid)) in
  let dx := JS.div (JS.sub maxx minx) n in
  let dy := JS.div (JS.sub maxy miny) n in
  let ranges := default [] slopeRanges in
  rows_from minx miny dx dy ranges 0 slopeGrid.

(** The whole slope effect (lines 182-282) on the map held by [mapRef]. *)
Definition slope_effect (mapRef : option MapGL.t) (loaded : bool)
    (slopeData : option SlopeData) (slopeRanges : option (list Range.t))
    : JS.result (option MapGL.t) :=
  match mapRef with
  | None => JS.Ok mapRef
  | Some map =>
      if negb loaded then JS.Ok mapRef
      else match slopeData with
      | None => JS.Ok (Some (clear_slope_cells map))
      | Some d =>
          match (match slopes_percent d with Some g => Some g | None => slopes d end),
                bbox d with
          | Some slopeGrid, Some bboxStr =>
              if negb (JS.truthy_str bboxStr) then JS.Ok mapRef
              else
                features ← tessellate slopeGrid bboxStr (grid_size d) slopeRanges;
                map ← upsert_slope_cells (mkFC "FeatureCollection" features) map;
                JS.Ok (Some map)
          | _, _ => JS.Ok mapRef
          end
      end
  end.

(* ------------------------------------------------------------------- *)
(** *** BoundingBoxDrawer (MapView.jsx, lines 300-360) *)

(** [mousedown]: the new content of [drawStartRef]. *)
Definition mousedown (e : MouseEvent) (drawStartRef : option LngLat)
    : option LngLat :=
  Some (unproject (offsetX e, offsetY e)).

(** [mouseup]: the new content of [drawStartRef] and the argument of the
    call to [onRectangleDrawn], when one is made.  [onRectangleDrawn]
    tells whether the component was given the callback.  The literal
    [0.001] is the binary64 value nearest to one thousandth. *)
Definition mouseup (onRectangleDrawn : bool) (e : MouseEvent)
    (drawStartRef : option LngLat) : option LngLat * option string :=
  match drawStartRef with
  | None => (drawStartRef, None)
  | Some start =>
      let end_ := unproject (offsetX e, offsetY e) in
      let minx := JS.min (lng start) (lng end_) in
      let miny := JS.min (lat start) (lat end_) in
      let maxx := JS.max (lng start) (lng end_) in
      let maxy := JS.max (lat start) (lat end_) in
      (None,
       if JS.gt (JS.abs (JS.sub maxx minx)) (JS.round64 (1 # 1000))
          && JS.gt (JS.abs (JS.sub maxy miny)) (JS.round64 (1 # 1000))
       then
         let bboxStr := toString minx +:+ "," +:+ toString miny +:+ ","
                        +:+ toString maxx +:+ "," +:+ toString maxy in
         if onRectangleDrawn then Some bboxStr else None
       else None)
  end.

(* ------------------------------------------------------------------- *)
(** *** RangeTable (SlopeMapPanel, lines 26-71) *)

(** [slopeRanges || DEFAULT_RANGES] *)
Definition panel_ranges (slopeRanges : option (list Range.t)) : list Range.t :=
  default DEFAULT_RANGES slopeRanges.

Definition handleRangeColorChange (ranges : list Range.t) (idx : nat)
    (newColor : string) : JS.result update :=
  match ranges !! idx with
  | Some r =>
      JS.Ok (Changed (<[idx := Range.mk (Range.min r) (Range.max r) newColor
                                 (Range.label r)]> ranges))
  | None =>
      JS.Ok (Grown ranges (idx - length ranges) None (Some newColor) None)
  end.

Definition handleRangeMinChange (ranges : list Range.t) (idx : nat)
    (val : string) : JS.result update :=
  let num := JS.num_or (Some (parseFloat val)) (Num 0) in
  match ranges !! idx with
  | Some r =>
      JS.Ok (Changed (<[idx :=
        Range.mk num (Range.max r) (Range.color r)
          (if JS.ge num (Num 75) then "> " +:+ toString num +:+ "%"
           else toString num +:+ " – " +:+ toString (Range.max r) +:+ "%")]>
        ranges))
  | None =>
      if JS.ge num (Num 75)
      then JS.Ok (Grown ranges (idx - length ranges) (Some num) None
                    (Some ("> " +:+ toString num +:+ "%")))
      else JS.Throw "TypeError"
  end.

Definition handleRangeMaxChange (ranges : list Range.t) (idx : nat)
    (val : string) : JS.result update :=
  let num := JS.num_or (Some (parseFloat val)) (Num 0) in
  match ranges !! idx with
  | Some r =>
      JS.Ok (Changed (<[idx :=
        Range.mk (Range.min r) num (Range.color r)
          (if JS.ge (Range.min r) (Num 75)
           then "> " +:+ toString (Range.min r) +:+ "%"
           else toString (Range.min r) +:+ " – " +:+ toString num +:+ "%")]>
        ranges))
  | None => JS.Throw "TypeError"
  end.

Definition handleDeleteRange (ranges : list Range.t) (idx : nat)
    : JS.result update :=
  if (length ranges <=? 2)%nat then JS.Ok NotCalled
  else JS.Ok (Changed (filter_index (fun i => negb (i =? idx)%nat) 0 ranges)).

Definition handleAddRange (ranges : list Range.t) : JS.result update :=
  let lastMax := JS.num_or (Range.max <$> last ranges) (Num 100) in
  let newRange :=
    Range.mk lastMax (JS.add lastMax (Num 25)) "#ff6600"
      (toString lastMax +:+ " – " +:+ toString (JS.add lastMax (Num 25)) +:+ "%") in
  JS.Ok (Changed (ranges ++ [newRange])).

End Host.

(* ===================================================================== *)
(** ** A small host for closed examples *)
(* ===================================================================== *)

(** The host conversions restricted to integer literals, enough to run the
    handlers on concrete inputs. *)
Fixpoint digits (s : string) (acc : Z) : option Z :=
  match s with
  | EmptyString => Some acc
  | String c rest =>
      let d := (Z.of_nat (nat_of_ascii c) - 48)%Z in
      if ((0 <=? d) && (d <=? 9))%Z then digits rest (10 * acc + d)%Z else None
  end.

Definition integer_literal (s : string) : number :=
  match s with
  | EmptyString => NaN
  | String "-" rest =>
      match rest, digits rest 0 with
      | String _ _, Some z => Num (inject_Z (- z))
      | _, _ => NaN
      end
  | _ => match digits s 0 with Some z => Num (inject_Z z) | None => NaN end
  end.

(** [Number(s)] on integer literals; the empty string converts to [0]. *)
Definition sample_Number (s : string) : number :=
  match s with EmptyString => Num 0 | _ => integer_literal s end.

(** [parseFloat(s)] on integer literals. *)
Definition sample_parseFloat (s : string) : number := integer_literal s.

(** [`${x}`] on integers; other values print as a fraction. *)
Definition sample_toString (x : number) : string :=
  match x with
  | NaN => "NaN"
  | PInf => "Infinity"
  | NInf => "-Infinity"
  | Num (Qmake a 1) => pretty a
  | Num (Qmake a b) => pretty a +:+ "/" +:+ pretty (Zpos b)
  end.

(** A projection that reads pixel offsets as degrees. *)
Definition sample_unproject (p : number * number) : LngLat :=
  mkLngLat (fst p) (snd p).

(* ===================================================================== *)
(** ** Auxiliary notions used in the statements *)
(* ===================================================================== *)

(** Every range lies entirely below every later one: its [max] is at most
    the [min] of each range after it. *)
Fixpoint ascending (ranges : list Range.t) : bool :=
  match ranges with
  | [] => true
  | r :: rest =>
      forallb (fun r' => JS.le (Range.max r) (Range.min r')) rest && ascending rest
  end.

(** Number of cells of a row; a [null] row has none. *)
Definition row_length (rw : row) : nat :=
  match rw with Cells vals => length vals | NullRow => 0 end.

(** Number of cells in the rows before row [r]: the position in the
    feature array at which the cells of row [r] start. *)
Definition cells_before (slopeGrid : list row) (r : nat) : nat :=
  sum_list (row_length <$> take r slopeGrid).

(** Every row of the grid is an array. *)
Definition all_arrays (slopeGrid : list row) : Prop :=
  Forall (fun rw => rw <> NullRow) slopeGrid.

(** An [n] by [n] grid: [n] rows, each an array of [n] cells. *)
Definition square (n : nat) (slopeGrid : list row) : Prop :=
  length slopeGrid = n
  /\ Forall (fun rw => rw <> NullRow /\ row_length rw = n) slopeGrid.

(** The outer ring of a feature's polygon. *)
Definition ring (f : Feature.t) : list (number * number) :=
  default [] (Feature.coordinates (Feature.geom f) !! 0%nat).

(** The map [m] with the data of the slope source replaced, and nothing
    else changed. *)
Definition with_data (fc : FeatureCollection) (m : MapGL.t) : MapGL.t :=
  MapGL.mk (<["slope-cells" := GeoJSON fc]> (MapGL.sources m))
           (MapGL.layers m) (MapGL.listeners m).

(** A run of upserts, one per feature collection. *)
Fixpoint upserts (fcs : list FeatureCollection) (m : MapGL.t) : JS.result MapGL.t :=
  match fcs with
  | [] => JS.Ok m
  | fc :: rest => m ← upsert_slope_cells fc m; upserts rest m
  end.

(** The layers painted from the slope source, and the listeners
    registered on the slope fill layer. *)
Definition slope_layers (m : MapGL.t) : list Layer.t :=
  List.filter (MapGL.uses "slope-cells") (MapGL.layers m).

Definition slope_listeners (m : MapGL.t) : list Listener.t :=
  List.filter (fun h => bool_decide (Listener.layer h = "slope-cells"))
              (MapGL.listeners m).

(** A map on which nothing of the slope overlay exists yet. *)
Definition no_slope_overlay (m : MapGL.t) : Prop :=
  MapGL.getSource "slope-cells" m = None
  /\ Forall (fun l => Layer.id l <> "slope-cells"
                      /\ Layer.id l <> "slope-cells-outline"
                      /\ Layer.source l <> "slope-cells") (MapGL.layers m)
  /\ Forall (fun h => Listener.layer h <> "slope-cells") (MapGL.listeners m).

(** The layers are in the state the first upsert leaves them in: setting
    the fill colour again is the identity on them. *)
Definition painted (m : MapGL.t) : Prop :=
  MapGL.setPaintProperty "slope-cells" "fill-color" (PExpr ["get"; "color"]) m = m.

(** The value stored at row [r], column [c]. *)
Definition cell_at (slopeGrid : list row) (r c : nat) : option number :=
  match slopeGrid !! r with
  | Some (Cells vals) => vals !! c
  | _ => None
  end.

(** [val] falls in the half-open interval of [rng]. *)
Definition within (val : number) (rng : Range.t) : bool :=
  JS.ge val (Range.min rng) && JS.lt val (Range.max rng).

(* ===================================================================== *)
(** ** The rest of the components *)
(* ===================================================================== *)

(** *** SlopeLegend (SlopeMapPanel, lines 227-241) *)

(** The text of one legend entry. *)
Definition legend_text (toString : number -> string) (r : Range.t) : string :=
  if JS.ge (Range.min r) (Num 75) then "> " +:+ toString (Range.min r) +:+ "%"
  else toString (Range.min r) +:+ " – " +:+ toString (Range.max r) +:+ "%".

(** The legend: nothing when hidden or without ranges, else one swatch
    colour and text per range. *)
Definition SlopeLegend (toString : number -> string)
    (ranges : option (list Range.t)) (visible : bool)
    : option (list (string * string)) :=
  if negb visible then None
  else match ranges with
       | None => None
       | Some rs =>
           if (length rs =? 0)%nat then None
           else Some ((fun r => (Range.color r, legend_text toString r)) <$> rs)
       end.

(** *** The preview rectangle of [mousemove] (MapView.jsx, lines 306-323) *)


(** *** The drawing effect and its cleanup (MapView.jsx, lines 285-373) *)

(** What the effect touches: the pan handler, the cursor of the canvas and
    the listeners attached to it, each tagged with the effect run that
    created the closure. *)
Record Canvas : Type :=
  mkCanvas { dragPan : bool; cursor : string; attached : list (string * nat) }.

(** [canvas.removeEventListener(type, fn)] *)
Definition removeEventListener (type : string) (run : nat)
    (l : list (string * nat)) : list (string * nat) :=
  List.filter (fun '(t, k) => negb (String.eqb t type && (k =? run)%nat)) l.

(** One run of the effect; [ready] is [map && loaded].  Returns the canvas
    and the run whose cleanup function it returned, if any. *)
Definition drawing_effect (run : nat) (ready drawingMode : bool) (c : Canvas)
    : Canvas * option nat :=
  if negb ready then (c, None)
  else if drawingMode
  then (mkCanvas false "crosshair"
          (((attached c ++ [("mousedown", run)]) ++ [("mousemove", run)])
             ++ [("mouseup", run)]),
        Some run)
  else (mkCanvas true "" (attached c), None).

(** The cleanup function returned by run [run]. *)
Definition drawing_cleanup (run : nat) (c : Canvas) : Canvas :=
  mkCanvas true ""
    (removeEventListener "mouseup" run
       (removeEventListener "mousemove" run
          (removeEventListener "mousedown" run (attached c)))).

(** A change of the effect's dependencies: the pending cleanup runs, then
    the effect runs again. *)
Definition rerender (run : nat) (ready drawingMode : bool)
    (st : Canvas * option nat) : Canvas * option nat :=
  let c := match snd st with
           | Some k => drawing_cleanup k (fst st)
           | None => fst st
           end in
  drawing_effect run ready drawingMode c.

(** A sequence of such changes, numbered from [run]. *)
Fixpoint renders (run : nat) (deps : list (bool * bool))
    (st : Canvas * option nat) : Canvas * option nat :=
  match deps with
  | [] => st
  | (ready, drawingMode) :: rest =>
      renders (S run) rest (rerender run ready drawingMode st)
  end.

(** *** App.jsx: the state the drawing and slope panels share *)

Module App.
Record state : Type :=
  mk { drawingMode : bool;
       slopeRectBbox : option string;
       slopeData : option SlopeData;
       slopeRanges : list Range.t;
       layers : gmap string bool }.

Definition initial : state :=
  mk false None None DEFAULT_RANGES
     (<["concessions" := true]> (<["slope" := true]> (<["userData" := true]> ∅))).

Definition handleStartDrawing (st : state) : state :=
  mk (negb (drawingMode st)) (slopeRectBbox st) (slopeData st) (slopeRanges st)
     (layers st).

Definition handleRectangleDrawn (rectBbox : string) (st : state) : state :=
  mk false (Some rectBbox) (slopeData st) (slopeRanges st) (layers st).

(** [{ ...prev, [layer]: !prev[layer] }]; a missing key reads [undefined]. *)
Definition handleToggleLayer (layer : string) (st : state) : state :=
  mk (drawingMode st) (slopeRectBbox st) (slopeData st) (slopeRanges st)
     (<[layer := negb (default false (layers st !! layer))]> (layers st)).

(** [handleGenerateSlope] once the request has settled: [response] is the
    payload, or [None] when the request was rejected. *)
Definition handleGenerateSlope (rectBbox : option string) (ranges : list Range.t)
    (response : option SlopeData) (st : state) : state :=
  match rectBbox with
  | None => st
  | Some b =>
      if negb (JS.truthy_str b) then st
      else match response with
           | Some data =>
               mk (drawingMode st) (slopeRectBbox st) (Some data) ranges
                  (<["slope" := true]> (layers st))
           | None => st
           end
  end.

(** [slopeData={layers.slope ? slopeData : null}] *)
Definition shown_slopeData (st : state) : option SlopeData :=
  if default false (layers st !! "slope") then slopeData st else None.
End App.

(** A pointer-up on the canvas of a [MapView] whose [onRectangleDrawn] is
    the application's [handleRectangleDrawn]. *)
Definition release (toString : number -> string)
    (unproject : number * number -> LngLat) (e : MouseEvent)
    (st : option LngLat * App.state) : option LngLat * App.state :=
  let '(ref, call) := mouseup toString unproject true e (fst st) in
  (ref, match call with
        | Some bboxStr => App.handleRectangleDrawn bboxStr (snd st)
        | None => snd st
        end).

(** *** The [useApi] hook *)

Module UseApi.
Record state (D : Type) : Type :=
  mk { data : option D; loading : bool; error : option string }.
Arguments mk {D} data loading error.
Arguments data {D} s.
Arguments loading {D} s.
Arguments error {D} s.

(** How the awaited call ends: a result, or a thrown error with its
    [message], if it has one. *)
Inductive outcome (D : Type) : Type :=
  | Resolved (result : D)
  | Rejected (message : option string).
Arguments Resolved {D} result.
Arguments Rejected {D} message.

(** [execute] up to its [await]: [setLoading(true); setError(null)].  The
    call is then pending, and other calls may start before it settles. *)
Definition pending {D} (s : state D) : state D := mk (data s) true None.

(** [execute] from its [await] on, run when the awaited call settles, on
    the state the hook has by then: the new state, and what [execute]
    returns or throws. *)
Definition settle {D} (o : outcome D) (s : state D) : state D * JS.result D :=
  match o with
  | Resolved result => (mk (Some result) false (error s), JS.Ok result)
  | Rejected message =>
      (mk (data s) false (Some (JS.str_or message "Unknown error")),
       JS.Throw (default "" message))
  end.

Definition reset {D} (s : state D) : state D := mk None false None.

(** What can happen to the hook: a call of [execute] starts, a call that
    was awaited settles, or [reset] is called. *)
Inductive event (D : Type) : Type :=
  | Called
  | Settled (o : outcome D)
  | Cleared.
Arguments Called {D}.
Arguments Settled {D} o.
Arguments Cleared {D}.

Definition step {D} (s : state D) (ev : event D) : state D :=
  match ev with
  | Called => pending s
  | Settled o => fst (settle o s)
  | Cleared => reset s
  end.

(** The events in the order they happen; calls may overlap. *)
Definition run {D} (evs : list (event D)) (s : state D) : state D :=
  fold_left step evs s.

(** The event leaves [data] as it is. *)
Definition keeps_data {D} (ev : event D) : bool :=
  match ev with
  | Settled (Resolved _) | Cleared => false
  | _ => true
  end.

(** The event is a call settling with a result. *)
Definition success {D} (ev : event D) : bool :=
  match ev with
  | Settled (Resolved _) => true
  | _ => false
  end.

Definition is_call {D} (ev : event D) : bool :=
  match ev with
  | Called => true
  | _ => false
  end.
End UseApi.

(** *** IntersectionPanel: the name shown on a card *)

(** [f.properties?.nombre || f.properties?.NOMBRE || `Concesión ${i + 1}`] *)
Definition card_name (toString : number -> string)
    (nombre NOMBRE : option string) (i : nat) : string :=
  JS.str_or nombre
    (JS.str_or NOMBRE ("Concesión " +:+ toString (JS.add (JS.of_nat i) (Num 1)))).

(* ===================================================================== *)
(** ** Further notions used in the statements *)
(* ===================================================================== *)

(** The string holds no comma. *)
Fixpoint comma_free (s : string) : bool :=
  match s with
  | EmptyString => true
  | String c rest => negb (Ascii.eqb c ","%char) && comma_free rest
  end.

(** No gap between consecutive ranges: each range starts at or below the
    [max] of the one before it. *)
Fixpoint contiguous (ranges : list Range.t) : bool :=
  match ranges with
  | r :: ((r' :: _) as rest) => JS.le (Range.min r') (Range.max r) && contiguous rest
  | _ => true
  end.

(** A layer of the slope overlay, by its id. *)
Definition overlay_layer (l : Layer.t) : bool :=
  MapGL.has_id "slope-cells" l || MapGL.has_id "slope-cells-outline" l.

(** The three listeners the slope effect registers. *)
Definition slope_handlers : list Listener.t :=
  [Listener.mk "click" "slope-cells" SlopePopup;
   Listener.mk "mouseenter" "slope-cells" CursorPointer;
   Listener.mk "mouseleave" "slope-cells" CursorReset].

(** The three canvas listeners of effect run [run]. *)
Definition drawing_listeners (run : nat) : list (string * nat) :=
  [("mousedown", run); ("mousemove", run); ("mouseup", run)].

(** Vertex [i] of the ring of [f] and vertex [j] of the ring of [g] are
    finite and no further apart than [tx] along x and [ty] along y. *)
Definition vertex_near (tx ty : Q) (f : Feature.t) (i : nat) (g : Feature.t) (j : nat)
    : Prop :=
  exists x y x' y',
    ring f !! i = Some (Num x, Num y) /\ ring g !! j = Some (Num x', Num y')
    /\ (Qabs (x - x') <= tx)%Q /\ (Qabs (y - y') <= ty)%Q.

(** A point with finite coordinates inside the rectangle. *)
Definition inside (minX minY maxX maxY : Q) (pt : number * number) : Prop :=
  exists x y, pt = (Num x, Num y)
    /\ (minX <= x)%Q /\ (x <= maxX)%Q /\ (minY <= y)%Q /\ (y <= maxY)%Q.

(** Between [m] and [m'] nothing outside the slope overlay has changed:
    the other sources, the other layers and their order, and the listeners
    that were registered. *)
Definition untouched_elsewhere (m m' : MapGL.t) : Prop :=
  (forall id : string, id <> "slope-cells" ->
      MapGL.sources m' !! id = MapGL.sources m !! id)
  /\ List.filter (fun l => negb (overlay_layer l)) (MapGL.layers m')
     = List.filter (fun l => negb (overlay_layer l)) (MapGL.layers m)
  /\ exists extra, MapGL.listeners m' = MapGL.listeners m ++ extra.

(** The canvas is in one of the two states the drawing effect leaves it in:
    armed by the run whose cleanup is pending, or idle. *)
Definition settled (st : Canvas * option nat) : Prop :=
  match snd st with
  | Some k => attached (fst st) = drawing_listeners k
              /\ dragPan (fst st) = false /\ cursor (fst st) = "crosshair"
  | None => attached (fst st) = [] /\ dragPan (fst st) = true
            /\ cursor (fst st) = ""
  end.


(** A feature without its colour: the polygon and the rounded slope. *)
Definition shape (f : Feature.t) : Feature.geometry * number :=
  (Feature.geom f, Feature.slope (Feature.props f)).

(** The rational is a binary64 value: rounding leaves it as it is. *)
Definition is_double (q : Q) : Prop := JS.same (JS.round64 q) (Num q).

(** The grid of a payload: [slopes_percent || slopes]. *)
Definition payload_grid (d : SlopeData) : option (list row) :=
  match slopes_percent d with Some g => Some g | None => slopes d end.

(* ===================================================================== *)
(** ** Facts about numbers *)
(* ===================================================================== *)

Lemma ge_lt_false (v a b : number) :
  JS.lt v a = true -> JS.le a b = true -> JS.ge v b = false.
Proof.
  unfold JS.lt, JS.le, JS.ge.
  destruct v as [| | |v], a as [| | |a], b as [| | |b]; simpl; try congruence.
  destruct (Qcompare_spec v a) as [H|H|H]; try congruence; intros _.
  destruct (Qcompare_spec a b) as [H1|H1|H1]; try congruence; intros _;
    destruct (Qcompare_spec v b) as [H2|H2|H2]; try reflexivity; exfalso.
  - rewrite H2, <- H1 in H. exact (Qlt_irrefl _ H).
  - rewrite <- H1 in H2. exact (Qlt_irrefl _ (Qlt_trans _ _ _ H H2)).
  - rewrite H2 in H. exact (Qlt_irrefl _ (Qlt_trans _ _ _ H H1)).
  - exact (Qlt_irrefl _ (Qlt_trans _ _ _ H (Qlt_trans _ _ _ H1 H2))).
Qed.

Lemma le_ge_lt_false (v a b : number) :
  JS.le a b = true -> JS.ge v b = true -> JS.lt v a = false.
Proof.
  intros Hab Hvb. destruct (JS.lt v a) eqn:E; [|reflexivity].
  rewrite (ge_lt_false v a b E Hab) in Hvb. discriminate.
Qed.

(* --------------------------------------------------------------------- *)
(** *** Rounding to binary64 *)

Lemma pow2_pos (e : Z) : (0 < JS.pow2 e)%Q.
Proof. apply Qpower_0_lt. reflexivity. Qed.

Lemma pow2_add (a b : Z) : (JS.pow2 (a + b) == JS.pow2 a * JS.pow2 b)%Q.
Proof. apply Qpower_plus. discriminate. Qed.

Lemma pow2_Z (n : Z) : (0 <= n)%Z -> (JS.pow2 n == inject_Z (2 ^ n))%Q.
Proof. intros H. unfold JS.pow2. rewrite (Zpower_Qpower 2 n H). reflexivity. Qed.

(** Powers of two with a literal exponent, as numerals. *)
Ltac pow2_consts :=
  repeat match goal with
  | |- context [JS.pow2 (Zneg ?p)] =>
      let v := eval vm_compute in (JS.pow2 (Zneg p)) in
      change (JS.pow2 (Zneg p)) with v
  | |- context [JS.pow2 (Zpos ?p)] =>
      let v := eval vm_compute in (JS.pow2 (Zpos p)) in
      change (JS.pow2 (Zpos p)) with v
  | H : context [JS.pow2 (Zneg ?p)] |- _ =>
      let v := eval vm_compute in (JS.pow2 (Zneg p)) in
      change (JS.pow2 (Zneg p)) with v in H
  | H : context [JS.pow2 (Zpos ?p)] |- _ =>
      let v := eval vm_compute in (JS.pow2 (Zpos p)) in
      change (JS.pow2 (Zpos p)) with v in H
  end.

(** The exponent found for a positive rational is that of its leading
    bit: [2^e <= a < 2^(e+1)]. *)
Lemma exponent_spec (a : Q) :
  (0 < a)%Q ->
  (JS.pow2 (JS.exponent a) <= a)%Q /\ (a < JS.pow2 (JS.exponent a + 1))%Q.
Proof.
  intros Ha. unfold JS.exponent.
  set (ln := Z.log2 (Qnum a)). set (ld := Z.log2 (Zpos (Qden a))).
  assert (Hn : (0 < Qnum a)%Z).
  { destruct a as [n d]. unfold Qlt in Ha. simpl in *. lia. }
  destruct (Z.log2_spec (Qnum a) Hn) as [Hn1 Hn2]. fold ln in Hn1, Hn2.
  destruct (Z.log2_spec (Zpos (Qden a)) eq_refl) as [Hd1 Hd2]. fold ld in Hd1, Hd2.
  assert (Hln : (0 <= ln)%Z) by apply Z.log2_nonneg.
  assert (Hld : (0 <= ld)%Z) by apply Z.log2_nonneg.
  unfold Z.succ in Hn2, Hd2.
  destruct (Qle_bool (JS.pow2 (ln - ld)) a) eqn:E.
  - split; [apply Qle_bool_iff; exact E|].
    replace (ln - ld + 1)%Z with ((ln + 1) + - ld)%Z by lia.
    rewrite pow2_add. unfold JS.pow2 at 2. rewrite Qpower_opp. fold (JS.pow2 ld).
    rewrite (pow2_Z (ln + 1)), (pow2_Z ld) by lia.
    set (X := (2 ^ (ln + 1))%Z) in *. set (Y := (2 ^ ld)%Z) in *.
    assert (HY : (0 < Y)%Z) by (subst Y; apply Z.pow_pos_nonneg; lia).
    clearbody X Y ln ld. clear E.
    destruct a as [n d]. cbn [Qnum Qden] in *.
    unfold Qlt, Qmult, Qinv. destruct Y as [|y|y]; try lia.
    cbn [Qnum Qden inject_Z]. rewrite Z.mul_1_r, Pos.mul_1_l. nia.
  - split.
    + replace (ln - ld - 1)%Z with (ln + - (ld + 1))%Z by lia.
      rewrite pow2_add. unfold JS.pow2 at 2. rewrite Qpower_opp.
      fold (JS.pow2 (ld + 1)).
      rewrite (pow2_Z ln Hln), (pow2_Z (ld + 1)) by lia.
      set (X := (2 ^ ln)%Z) in *. set (Y := (2 ^ (ld + 1))%Z) in *.
      clearbody X Y ln ld. clear E.
      destruct a as [n d]. cbn [Qnum Qden] in *.
      assert (HY : (0 < Y)%Z) by lia.
      unfold Qle, Qmult, Qinv. destruct Y as [|y|y]; try lia.
      cbn [Qnum Qden inject_Z]. rewrite Z.mul_1_r, Pos.mul_1_l. nia.
    + replace (ln - ld - 1 + 1)%Z with (ln - ld)%Z by lia.
      apply Qnot_le_lt. intros H. apply Qle_bool_iff in H. congruence.
Qed.

Lemma nearest_even_close (m : Q) :
  (Qabs (inject_Z (JS.nearest_even m) - m) <= 1 # 2)%Q.
Proof.
  unfold JS.nearest_even.
  pose proof (Qfloor_le m) as Hlo. pose proof (Qlt_floor m) as Hhi.
  rewrite inject_Z_plus in Hhi. change (inject_Z 1) with 1%Q in Hhi.
  set (f := Qfloor m) in *.
  destruct (Qcompare_spec (m - inject_Z f) (1 # 2)) as [H|H|H].
  - destruct (Z.even f).
    + apply Qabs_Qle_condition. generalize dependent (inject_Z f). intros; split; lra.
    + rewrite inject_Z_plus. change (inject_Z 1) with 1%Q.
      apply Qabs_Qle_condition. generalize dependent (inject_Z f). intros; split; lra.
  - apply Qabs_Qle_condition. generalize dependent (inject_Z f). intros; split; lra.
  - rewrite inject_Z_plus. change (inject_Z 1) with 1%Q.
    apply Qabs_Qle_condition. generalize dependent (inject_Z f). intros; split; lra.
Qed.

(** Below the overflow threshold rounding yields a finite value whose
    distance from the exact one is at most half a unit in the last place. *)
Lemma round_pos_error (a : Q) :
  (0 < a)%Q -> (a <= JS.pow2 1023)%Q ->
  exists r, JS.round_pos a = Num r
    /\ (Qabs (r - a) <= a * JS.pow2 (-53) + JS.pow2 (-1075))%Q.
Proof.
  intros Ha Hmax. unfold JS.round_pos.
  set (e := Z.max (JS.exponent a) (-1022)).
  set (u := JS.pow2 (e - 52)).
  set (k := inject_Z (JS.nearest_even (a / u))).
  assert (Hu : (0 < u)%Q) by apply pow2_pos.
  assert (Hk : (Qabs (k * u - a) <= u * (1 # 2))%Q).
  { pose proof (nearest_even_close (a / u)) as Hc. fold k in Hc.
    assert (Heq : (k * u - a == (k - a / u) * u)%Q) by (field; lra).
    rewrite Heq, Qabs_Qmult, (Qabs_pos u) by lra.
    rewrite (Qmult_comm u). apply Qmult_le_compat_r; [exact Hc | lra]. }
  assert (Hhalf : (u * (1 # 2) <= a * JS.pow2 (-53) + JS.pow2 (-1075))%Q).
  { assert (Hsplit : (u * (1 # 2) == JS.pow2 e * JS.pow2 (-53))%Q).
    { subst u. replace (e - 52)%Z with (e + -52)%Z by lia.
      rewrite pow2_add. pow2_consts. field. }
    rewrite Hsplit. subst e.
    destruct (Z.max_spec (JS.exponent a) (-1022)) as [[_ ->]|[_ ->]].
    - pow2_consts. lra.
    - destruct (exponent_spec a Ha) as [He _].
      assert (Hp : (0 < JS.pow2 (-53))%Q) by apply pow2_pos.
      assert (Hq : (0 < JS.pow2 (-1075))%Q) by apply pow2_pos.
      assert (Hm : (JS.pow2 (JS.exponent a) * JS.pow2 (-53) <= a * JS.pow2 (-53))%Q)
        by (apply Qmult_le_compat_r; lra).
      lra. }
  assert (Hfin : (k * u < JS.pow2 1024)%Q).
  { apply Qabs_Qle_condition in Hk. pow2_consts. lra. }
  destruct (Qle_bool (JS.pow2 1024) (k * u)) eqn:E.
  - apply Qle_bool_iff in E. lra.
  - exists (Qred (k * u)). split; [reflexivity|]. rewrite Qred_correct. lra.
Qed.

Lemma neg_neg (x : number) : JS.neg (JS.neg x) = x.
Proof.
  destruct x as [| | |[n d]]; try reflexivity.
  unfold JS.neg, Qopp. cbn [Qnum Qden]. rewrite Z.opp_involutive. reflexivity.
Qed.

(** Rounding is symmetric about zero, and does not see how a rational is
    written. *)
Lemma round64_opp (q : Q) : JS.round64 (- q) = JS.neg (JS.round64 q).
Proof.
  unfold JS.round64. rewrite Qred_opp. destruct (Qred q) as [[|p|p] d]; cbn.
  - reflexivity.
  - reflexivity.
  - symmetry. apply neg_neg.
Qed.

Lemma round64_morph (p q : Q) : (p == q)%Q -> JS.round64 p = JS.round64 q.
Proof. intros H. unfold JS.round64. rewrite (Qred_complete p q H). reflexivity. Qed.

Lemma round64_zero (q : Q) : (q == 0)%Q -> JS.round64 q = Num 0.
Proof. intros H. rewrite (round64_morph q 0 H). reflexivity. Qed.

Lemma round64_error (q : Q) :
  (Qabs q <= JS.pow2 1023)%Q ->
  exists r, JS.round64 q = Num r
    /\ (Qabs (r - q) <= Qabs q * JS.pow2 (-53) + JS.pow2 (-1075))%Q.
Proof.
  intros Hmax. unfold JS.round64.
  pose proof (Qred_correct q) as Hred.
  destruct (Qred q) as [[|p|p] d] eqn:E; cbn [Qnum].
  - exists 0%Q. split; [reflexivity|].
    assert (Hq : (q == 0)%Q) by (rewrite <- Hred; reflexivity).
    rewrite Hq. pow2_consts. vm_compute. discriminate.
  - assert (Hpos : (0 < Z.pos p # d)%Q) by reflexivity.
    assert (Habs : (Qabs q == Z.pos p # d)%Q) by (rewrite <- Hred; reflexivity).
    destruct (round_pos_error (Z.pos p # d) Hpos) as (r & Hr & Herr).
    { rewrite <- Habs. exact Hmax. }
    exists r. split; [exact Hr|]. rewrite Habs, <- Hred. exact Herr.
  - assert (Hpos : (0 < - (Z.neg p # d))%Q) by reflexivity.
    assert (Habs : (Qabs q == - (Z.neg p # d))%Q) by (rewrite <- Hred; reflexivity).
    destruct (round_pos_error (- (Z.neg p # d)) Hpos) as (r & Hr & Herr).
    { rewrite <- Habs. exact Hmax. }
    rewrite Hr. exists (- r)%Q. split; [reflexivity|].
    rewrite Habs.
    assert (Hflip : (Qabs (- r - q) == Qabs (r - - (Z.neg p # d)))%Q).
    { rewrite <- Hred. rewrite <- (Qabs_opp (r - - (Z.neg p # d))).
      apply Qabs_wd. ring. }
    rewrite Hflip. exact Herr.
Qed.

(** The form used below: a value of magnitude at most [M] rounds to a
    finite value within [M * 2^-53 + 2^-1075] of it. *)
Lemma round64_within (q M : Q) :
  (Qabs q <= M)%Q -> (M <= JS.pow2 1023)%Q ->
  exists r, JS.round64 q = Num r
    /\ (Qabs (r - q) <= M * JS.pow2 (-53) + JS.pow2 (-1075))%Q.
Proof.
  intros Hq HM. destruct (round64_error q) as (r & Hr & He); [lra|].
  exists r. split; [exact Hr|].
  assert (Hp : (0 < JS.pow2 (-53))%Q) by apply pow2_pos.
  assert (Hm : (Qabs q * JS.pow2 (-53) <= M * JS.pow2 (-53))%Q)
    by (apply Qmult_le_compat_r; lra).
  lra.
Qed.

(** Some values of the rounding, as a JavaScript console shows them:
    [0.1 + 0.2] is [0.30000000000000004], [0.35 * 10] is [3.5], and
    [1e308 - (-1e308)] is [Infinity]. *)
Lemma round64_examples :
  JS.add (JS.round64 (1 # 10)) (JS.round64 (2 # 10))
  = Num (1351079888211149 # 4503599627370496)
  /\ JS.mul (JS.round64 (35 # 100)) (Num 10) = Num (7 # 2)
  /\ JS.round64 (JS.pow2 1024) = PInf
  /\ JS.round64 (JS.pow2 (-1075)) = Num 0
  /\ JS.add (Num (JS.pow2 53)) (Num 1) = Num (JS.pow2 53)
  /\ JS.sub (JS.round64 (inject_Z (10 ^ 308)))
            (JS.neg (JS.round64 (inject_Z (10 ^ 308)))) = PInf.
Proof. vm_compute. repeat split. Qed.

(* ===================================================================== *)
(** ** SlopeClassifier *)
(* ===================================================================== *)

Lemma walk_within (val : number) (ranges : list Range.t) (fill : string)
    (i : nat) (r : Range.t) :
  ranges !! i = Some r ->
  within val r = true ->
  (forall j rj, (j < i)%nat -> ranges !! j = Some rj -> within val rj = false) ->
  walk val ranges fill = Range.color r.
Proof.
  revert i. induction ranges as [|r0 rest IH]; intros i Hi Hin Hbefore.
  - discriminate.
  - destruct i as [|i]; simpl in *.
    + injection Hi as ->. unfold within in Hin. rewrite Hin. reflexivity.
    + assert (H0 : within val r0 = false) by (apply (Hbefore 0%nat); [lia|reflexivity]).
      unfold within in H0. rewrite H0.
      apply (IH i); [assumption | assumption |].
      intros j rj Hj Hl. apply (Hbefore (S j)); [lia | exact Hl].
Qed.

Lemma ascending_lookup (ranges : list Range.t) (j i : nat) (rj ri : Range.t) :
  ascending ranges = true -> (j < i)%nat ->
  ranges !! j = Some rj -> ranges !! i = Some ri ->
  JS.le (Range.max rj) (Range.min ri) = true.
Proof.
  revert j i. induction ranges as [|r0 rest IH]; intros j i Hasc Hlt Hj Hi.
  - discriminate.
  - simpl in Hasc. apply andb_prop in Hasc as [Hall Hrest].
    destruct i as [|i]; [lia|]. destruct j as [|j]; simpl in *.
    + injection Hj as ->. rewrite forallb_forall in Hall.
      apply Hall. apply list_elem_of_In. eapply list_elem_of_lookup_2; eassumption.
    + apply (IH j i); [assumption | lia | assumption | assumption].
Qed.

(** C1.  For a non-empty range table whose last entry is [l] (an RGB colour
    string, hence not the empty string), every value [v] with [v >= l.min]
    is classified to [l.color], whatever [l.max] is and whatever earlier
    range the walk may have matched. *)
Theorem classify_last_catch_all (ranges : list Range.t) (l : Range.t) (v : number) :
  last ranges = Some l ->
  Range.color l <> "" ->
  JS.ge v (Range.min l) = true ->
  classify v ranges = Range.color l.
Proof.
  intros Hlast Hcol Hge. unfold classify, above_last.
  rewrite Hlast, Hge. simpl.
  destruct (Range.color l); [contradiction | reflexivity].
Qed.

Lemma classify_last_catch_all_witness :
  classify (Num 2) [Range.mk (Num 0) (Num 3) "#38a800" "a";
                    Range.mk (Num 1) (Num (3 # 2)) "#ff0000" "b"] = "#ff0000".
Proof.
  apply (classify_last_catch_all _ (Range.mk (Num 1) (Num (3 # 2)) "#ff0000" "b"));
    [reflexivity | discriminate | reflexivity].
Defined.

(** C5.  In an ascending table, a value inside the half-open interval of a
    range that is not the last gets that range's colour.  More generally
    the first range in list order whose interval holds the value wins, as
    long as the value is below the last range's [min]. *)
Theorem classify_first_match :
  (forall (ranges : list Range.t) (i : nat) (r : Range.t) (v : number),
      ascending ranges = true ->
      ranges !! i = Some r -> (S i < length ranges)%nat ->
      JS.ge v (Range.min r) = true -> JS.lt v (Range.max r) = true ->
      classify v ranges = Range.color r)
  /\
  (forall (ranges : list Range.t) (i : nat) (r : Range.t) (v : number),
      ranges !! i = Some r -> within v r = true ->
      (forall j rj, (j < i)%nat -> ranges !! j = Some rj -> within v rj = false) ->
      above_last v ranges = false ->
      classify v ranges = Range.color r).
Proof.
  assert (General : forall ranges i r v,
      ranges !! i = Some r -> within v r = true ->
      (forall j rj, (j < i)%nat -> ranges !! j = Some rj -> within v rj = false) ->
      above_last v ranges = false ->
      classify v ranges = Range.color r).
  { intros ranges i r v Hi Hin Hbefore Hlast. unfold classify.
    rewrite Hlast. eapply walk_within; eassumption. }
  split; [|exact General].
  intros ranges i r v Hasc Hi Hnotlast Hge Hlt.
  apply (General ranges i r v Hi).
  - unfold within. rewrite Hge, Hlt. reflexivity.
  - intros j rj Hj Hl. unfold within.
    rewrite (le_ge_lt_false v (Range.max rj) (Range.min r)).
    + apply andb_false_r.
    + eapply ascending_lookup; eassumption.
    + exact Hge.
  - unfold above_last. rewrite last_lookup.
    destruct (ranges !! Nat.pred (length ranges)) as [l|] eqn:El; [|reflexivity].
    apply (ge_lt_false v (Range.max r) (Range.min l) Hlt).
    apply (ascending_lookup ranges i (Nat.pred (length ranges)) r l);
      [assumption | lia | assumption | assumption].
Qed.

Lemma classify_first_match_witness :
  classify (Num 8) DEFAULT_RANGES = "#a8a800".
Proof.
  apply (proj1 classify_first_match DEFAULT_RANGES 2%nat
           (Range.mk (Num 7) (Num 12) "#a8a800" "7 – 12%") (Num 8));
    first [reflexivity | simpl; lia].
Defined.

(* ===================================================================== *)
(** ** GridTessellator *)
(* ===================================================================== *)

Section Rows.
Variables (minx miny dx dy : number) (ranges : list Range.t).

Lemma cells_before_cons (rw : row) (rest : list row) (r : nat) :
  cells_before (rw :: rest) (S r) = (row_length rw + cells_before rest r)%nat.
Proof. reflexivity. Qed.

(** The outer loop completes on a grid of arrays, ragged or not, and
    lays the cells out row after row. *)
Lemma rows_from_spec (slopeGrid : list row) :
  all_arrays slopeGrid ->
  forall r0, exists fs,
    rows_from minx miny dx dy ranges r0 slopeGrid = JS.Ok fs
    /\ length fs = cells_before slopeGrid (length slopeGrid)
    /\ (forall r c v, cell_at slopeGrid r c = Some v ->
          fs !! (cells_before slopeGrid r + c)%nat
          = Some (cell minx miny dx dy ranges (r0 + r) c v))
    /\ (forall f, f ∈ fs ->
          exists r c v, f = cell minx miny dx dy ranges r c v).
Proof.
  induction 1 as [|rw rest Hrw Hrest IH]; intros r0.
  - exists []. repeat split.
    + intros r c v H. unfold cell_at in H. rewrite lookup_nil in H. discriminate.
    + intros f Hf. inversion Hf.
  - destruct rw as [vals|]; [|contradiction].
    destruct (IH (S r0)) as (fs & Hrun & Hlen & Hget & Hall).
    exists (row_cells minx miny dx dy ranges r0 vals ++ fs).
    split; [simpl; rewrite Hrun; reflexivity|].
    split; [|split].
    + rewrite length_app. unfold row_cells. rewrite length_imap, Hlen.
      simpl length. rewrite cells_before_cons. reflexivity.
    + intros [|r] c v Hc; unfold cell_at in Hc; simpl in Hc.
      * unfold cells_before; simpl.
        rewrite lookup_app_l
          by (unfold row_cells; rewrite length_imap; eapply lookup_lt_Some; eassumption).
        unfold row_cells. rewrite list_lookup_imap, Hc. simpl.
        rewrite Nat.add_0_r. reflexivity.
      * rewrite cells_before_cons. simpl row_length.
        rewrite <- Nat.add_assoc.
        assert (Hl : length (row_cells minx miny dx dy ranges r0 vals) = length vals)
          by (unfold row_cells; apply length_imap).
        rewrite <- Hl, lookup_app_r by lia.
        replace (length (row_cells minx miny dx dy ranges r0 vals)
                 + (cells_before rest r + c)
                 - length (row_cells minx miny dx dy ranges r0 vals))%nat
          with (cells_before rest r + c)%nat by lia.
        rewrite (Hget r c v Hc). f_equal. f_equal. lia.
    + intros f Hf. apply elem_of_app in Hf as [Hf|Hf].
      * unfold row_cells in Hf. apply elem_of_lookup_imap in Hf as (c & v & -> & _).
        eauto.
      * apply Hall. exact Hf.
Qed.

End Rows.

Lemma square_all_arrays (n : nat) (slopeGrid : list row) :
  square n slopeGrid -> all_arrays slopeGrid.
Proof.
  intros [_ H]. unfold all_arrays. eapply Forall_impl; [exact H|].
  intros rw [Hrw _]. exact Hrw.
Qed.

Lemma square_cells_before (n : nat) (slopeGrid : list row) (r : nat) :
  square n slopeGrid -> (r <= n)%nat -> cells_before slopeGrid r = (r * n)%nat.
Proof.
  intros [Hlen H] Hr. unfold cells_before.
  assert (Hsum : forall l : list row,
             Forall (fun rw => rw <> NullRow /\ row_length rw = n) l ->
             sum_list (row_length <$> l) = (length l * n)%nat).
  { induction 1 as [|rw l [_ Hrw] _ IH]; [reflexivity|].
    rewrite fmap_cons. change (sum_list (row_length rw :: (row_length <$> l)))
      with (row_length rw + sum_list (row_length <$> l))%nat.
    rewrite Hrw, IH. reflexivity. }
  rewrite Hsum by (apply Forall_take; exact H).
  rewrite length_take. f_equal. lia.
Qed.

Lemma square_cell_at (n : nat) (slopeGrid : list row) (r c : nat) :
  square n slopeGrid -> (r < n)%nat -> (c < n)%nat ->
  is_Some (cell_at slopeGrid r c).
Proof.
  intros [Hlen H] Hr Hc. unfold cell_at.
  destruct (lookup_lt_is_Some_2 slopeGrid r) as [rw Hrw]; [lia|].
  rewrite Hrw. rewrite Forall_lookup in H. destruct (H r rw Hrw) as [Hnn Hl].
  destruct rw as [vals|]; [|contradiction].
  apply lookup_lt_is_Some_2. simpl in Hl. lia.
Qed.

Lemma of_nat_nonzero (n : nat) :
  (0 < n)%nat -> Qeq_bool (inject_Z (Z.of_nat n)) 0 = false.
Proof.
  intros Hn. unfold Qeq_bool. simpl. apply Z.eqb_neq. lia.
Qed.

Lemma div_of_nat (p : Q) (n : nat) :
  (0 < n)%nat ->
  JS.div (Num p) (JS.of_nat n) = JS.round64 (p / inject_Z (Z.of_nat n)).
Proof.
  intros Hn. unfold JS.div, JS.of_nat. rewrite (of_nat_nonzero n Hn). reflexivity.
Qed.

Lemma Qabs_bound (x e : Q) : (Qabs x <= e)%Q <-> (- e <= x /\ x <= e)%Q.
Proof. apply Qabs_Qle_condition. Qed.

(** Rounding to one decimal, for every value whose tenfold is finite: the
    result is the binary64 value of a multiple of one tenth, and lies
    within one twentieth of the value, up to the rounding of the two
    operations. *)
Lemma round1_spec (q : Q) :
  (Qabs q <= JS.pow2 1000)%Q ->
  exists (z : Z) (s : Q),
    round1 (Num q) = Num s
    /\ JS.round64 (inject_Z z / 10) = Num s
    /\ (Qabs (s - q) <= (1 # 20) + (Qabs q + 1) * JS.pow2 (-51))%Q.
Proof.
  intros Hq. unfold round1. cbn [JS.mul].
  pose proof (Qabs_nonneg q) as HA0.
  assert (HA : (Qabs q <= Qabs q)%Q) by apply Qle_refl.
  apply Qabs_bound in HA.
  set (A := Qabs q) in *. clearbody A.
  destruct (round64_within (q * 10) (A * 10)) as (t & Ht & Het).
  { rewrite Qabs_Qmult. change (Qabs 10) with 10%Q.
    assert (HqA : (Qabs q <= A)%Q) by (apply Qabs_bound; exact HA). lra. }
  { revert Hq. pow2_consts. intros. lra. }
  rewrite Ht. cbn [JS.round].
  set (z := Qfloor (t + (1 # 2))).
  pose proof (Qfloor_le (t + (1 # 2))) as Hlo.
  pose proof (Qlt_floor (t + (1 # 2))) as Hhi.
  rewrite inject_Z_plus in Hhi. change (inject_Z 1) with 1%Q in Hhi.
  fold z in Hlo, Hhi.
  apply Qabs_bound in Het.
  unfold JS.div. change (Qeq_bool 10 0) with false. cbv iota.
  assert (Hdiv : (inject_Z z / 10 == inject_Z z * (1 # 10))%Q) by reflexivity.
  destruct (round64_within (inject_Z z / 10) (A * 2 + 1)) as (s & Hs & Hes).
  { rewrite Hdiv. apply Qabs_bound. revert Het. pow2_consts.
    generalize dependent (inject_Z z). intros; split; lra. }
  { revert Hq. pow2_consts. intros. lra. }
  exists z, s. split; [exact Hs|]. split; [exact Hs|].
  rewrite Hdiv in Hes. apply Qabs_bound in Hes. apply Qabs_bound.
  revert Het Hes. pow2_consts. generalize dependent (inject_Z z). intros; split; lra.
Qed.

(** One axis of the grid in binary64.  With bounds of magnitude at most
    512 and fewer than 2^32 cells, the cell size and the two edges of cell
    [c] are finite, and each edge is within [2^-38] of its exact position
    [lo + c * (hi - lo) / n] and [lo + (c + 1) * (hi - lo) / n]. *)
Lemma axis_points (lo hi : Q) (n c : nat) :
  (Qabs lo <= 512)%Q -> (Qabs hi <= 512)%Q ->
  (0 < n)%nat -> (Z.of_nat n < 2 ^ 32)%Z -> (c < n)%nat ->
  exists d x0 x1 : Q,
    JS.div (JS.sub (Num hi) (Num lo)) (JS.of_nat n) = Num d
    /\ JS.add (Num lo) (JS.mul (JS.of_nat c) (Num d)) = Num x0
    /\ JS.add (Num x0) (Num d) = Num x1
    /\ (Qabs (x0 - (lo + inject_Z (Z.of_nat c)
                          * ((hi - lo) / inject_Z (Z.of_nat n)))) <= JS.pow2 (-38))%Q
    /\ (Qabs (x1 - (lo + (inject_Z (Z.of_nat c) + 1)
                          * ((hi - lo) / inject_Z (Z.of_nat n)))) <= JS.pow2 (-38))%Q.
Proof.
  intros Hlo Hhi Hn Hn32 Hc.
  set (qn := inject_Z (Z.of_nat n)). set (qc := inject_Z (Z.of_nat c)).
  assert (Hqn : (1 <= qn)%Q).
  { subst qn. change 1%Q with (inject_Z 1). rewrite <- Zle_Qle. lia. }
  assert (Hqn32 : (qn <= 4294967296)%Q).
  { subst qn. change 4294967296%Q with (inject_Z (2 ^ 32)). rewrite <- Zle_Qle. lia. }
  assert (Hqc : (0 <= qc)%Q).
  { subst qc. change 0%Q with (inject_Z 0). rewrite <- Zle_Qle. lia. }
  assert (Hqcn : (qc + 1 <= qn)%Q).
  { subst qc qn. change 1%Q with (inject_Z 1).
    rewrite <- inject_Z_plus, <- Zle_Qle. lia. }
  apply Qabs_bound in Hlo. apply Qabs_bound in Hhi.
  (* the width *)
  destruct (round64_within (hi + - lo) 1024) as (w & Hw & Hew).
  { apply Qabs_bound. split; lra. } { pow2_consts. lra. }
  apply Qabs_bound in Hew.
  (* the cell size *)
  set (D := (w / qn)%Q).
  assert (HD : (D * qn == w)%Q) by (subst D; field; lra).
  assert (HaD : (Qabs D * qn == Qabs w)%Q).
  { rewrite <- HD. rewrite Qabs_Qmult, (Qabs_pos qn) by lra. reflexivity. }
  assert (Haw : (Qabs w <= 1025)%Q).
  { apply Qabs_bound. pow2_consts. split; lra. }
  assert (HaD0 : (0 <= Qabs D)%Q) by apply Qabs_nonneg.
  assert (HaDw : (Qabs D <= Qabs w)%Q) by nra.
  destruct (round64_error D) as (d & Hd & Hed).
  { pow2_consts. lra. }
  set (b := (d - D)%Q).
  assert (Hb : (Qabs b <= Qabs D * JS.pow2 (-53) + JS.pow2 (-1075))%Q) by exact Hed.
  assert (Hab0 : (0 <= Qabs b)%Q) by apply Qabs_nonneg.
  (* errors scaled by the column *)
  assert (Hcb : (Qabs (qc * b) <= 1025 * JS.pow2 (-53) + 4294967296 * JS.pow2 (-1075))%Q).
  { rewrite Qabs_Qmult, (Qabs_pos qc) by lra.
    assert (Hp : (0 < JS.pow2 (-53))%Q) by apply pow2_pos.
    assert (Hq : (0 < JS.pow2 (-1075))%Q) by apply pow2_pos.
    assert (H1 : (qc * Qabs D <= Qabs w)%Q) by nra.
    assert (H2 : (qc * Qabs b
                  <= qc * Qabs D * JS.pow2 (-53) + qc * JS.pow2 (-1075))%Q) by nra.
    assert (H3 : (qc * Qabs D * JS.pow2 (-53) <= 1025 * JS.pow2 (-53))%Q)
      by (apply Qmult_le_compat_r; lra).
    assert (H4 : (qc * JS.pow2 (-1075) <= 4294967296 * JS.pow2 (-1075))%Q)
      by (apply Qmult_le_compat_r; lra).
    lra. }
  assert (Hb1 : (Qabs b <= 1025 * JS.pow2 (-53) + JS.pow2 (-1075))%Q).
  { assert (Hp : (0 < JS.pow2 (-53))%Q) by apply pow2_pos.
    assert (H3 : (Qabs D * JS.pow2 (-53) <= 1025 * JS.pow2 (-53))%Q)
      by (apply Qmult_le_compat_r; lra).
    lra. }
  set (a := (w - (hi - lo))%Q).
  assert (Ha : (Qabs a <= 1024 * JS.pow2 (-53) + JS.pow2 (-1075))%Q).
  { apply Qabs_bound. subst a. split; lra. }
  set (W := ((hi - lo) / qn)%Q).
  assert (HW : (W * qn == hi - lo)%Q) by (subst W; field; lra).
  (* D - W = a / qn, and qc * (D - W) is no larger than a *)
  set (g := (D - W)%Q).
  assert (Hg : (g * qn == a)%Q) by (subst g a; nra).
  assert (Hag : (Qabs g * qn == Qabs a)%Q).
  { rewrite <- Hg. rewrite Qabs_Qmult, (Qabs_pos qn) by lra. reflexivity. }
  assert (Hag0 : (0 <= Qabs g)%Q) by apply Qabs_nonneg.
  assert (Hg1 : (Qabs g <= Qabs a)%Q) by nra.
  assert (Hcg : (Qabs (qc * g) <= 1024 * JS.pow2 (-53) + JS.pow2 (-1075))%Q).
  { rewrite Qabs_Qmult, (Qabs_pos qc) by lra. nra. }
  (* the product column * size *)
  assert (HcD : (Qabs (qc * D) <= 1025)%Q).
  { rewrite Qabs_Qmult, (Qabs_pos qc) by lra. nra. }
  apply Qabs_bound in Hcb. apply Qabs_bound in Hb1. apply Qabs_bound in Ha.
  apply Qabs_bound in Hcg. apply Qabs_bound in HcD.
  assert (Eqcd : (qc * d == qc * D + qc * b)%Q) by (subst b; ring).
  destruct (round64_within (qc * d) 2048) as (p & Hp & Hep).
  { apply Qabs_bound. rewrite Eqcd. pow2_consts. split; lra. } { pow2_consts. lra. }
  apply Qabs_bound in Hep.
  destruct (round64_within (lo + p) 2048) as (x0 & Hx0 & Hex0).
  { apply Qabs_bound. rewrite Eqcd in Hep. pow2_consts. split; lra. }
  { pow2_consts. lra. }
  apply Qabs_bound in Hex0.
  assert (HD1 : (Qabs D <= 1025)%Q) by lra.
  apply Qabs_bound in HD1.
  assert (Ed : (d == D + b)%Q) by (subst b; ring).
  destruct (round64_within (x0 + d) 4096) as (x1 & Hx1 & Hex1).
  { apply Qabs_bound. rewrite Eqcd in Hep. rewrite Ed. pow2_consts. split; lra. }
  { pow2_consts. lra. }
  apply Qabs_bound in Hex1.
  exists d, x0, x1.
  split.
  { unfold JS.sub. cbn [JS.neg JS.add]. rewrite Hw, div_of_nat by exact Hn.
    exact Hd. }
  split.
  { change (JS.add (Num lo) (JS.round64 (qc * d)) = Num x0).
    rewrite Hp. exact Hx0. }
  split; [exact Hx1|].
  fold qc qn W.
  assert (EcD : (qc * D == qc * W + qc * g)%Q) by (subst g; ring).
  assert (ED : (D == W + g)%Q) by (subst g; ring).
  assert (Hg2 : (Qabs g <= 1024 * JS.pow2 (-53) + JS.pow2 (-1075))%Q).
  { apply Qabs_bound in Ha. lra. }
  apply Qabs_bound in Hg2.
  rewrite Eqcd, EcD in Hep. rewrite Ed, ED in Hex1.
  assert (E1 : ((qc + 1) * W == qc * W + W)%Q) by ring.
  rewrite E1.
  clearbody b a g W D.
  clear - Hep Hex0 Hex1 Hcb Hb1 Ha Hcg Hg2.
  generalize dependent (qc * W)%Q. generalize dependent (qc * g)%Q.
  generalize dependent (qc * b)%Q. intros cb Hcb cg Hcg cW Hep.
  split; apply Qabs_bound; pow2_consts; split; lra.
Qed.

Lemma size_of_square (n : nat) (slopeGrid : list row) (grid_size : option number) :
  length slopeGrid = n ->
  grid_size = None \/ grid_size = Some (JS.of_nat n) ->
  JS.num_or grid_size (JS.of_nat (length slopeGrid)) = JS.of_nat n.
Proof.
  intros Hn [->| ->]; rewrite Hn; [reflexivity|].
  unfold JS.num_or. destruct (JS.truthy (JS.of_nat n)); reflexivity.
Qed.

(** The features of a square grid, each in its place. *)
Lemma square_cells (Number : string -> number) (n : nat)
    (slopeGrid : list row) (bboxStr : string) (grid_size : option number)
    (slopeRanges : option (list Range.t)) (minx miny maxx maxy : number) :
  square n slopeGrid ->
  parse_bbox Number bboxStr = [minx; miny; maxx; maxy] ->
  grid_size = None \/ grid_size = Some (JS.of_nat n) ->
  exists fs,
    tessellate Number slopeGrid bboxStr grid_size slopeRanges = JS.Ok fs
    /\ length fs = (n * n)%nat
    /\ (forall r c, (r < n)%nat -> (c < n)%nat ->
          exists v, cell_at slopeGrid r c = Some v
          /\ fs !! (r * n + c)%nat
             = Some (cell minx miny
                       (JS.div (JS.sub maxx minx) (JS.of_nat n))
                       (JS.div (JS.sub maxy miny) (JS.of_nat n))
                       (default [] slopeRanges) r c v)).
Proof.
  intros Hsq Hbox Hsize.
  pose proof (square_all_arrays n slopeGrid Hsq) as Harr.
  destruct (rows_from_spec minx miny
              (JS.div (JS.sub maxx minx) (JS.of_nat n))
              (JS.div (JS.sub maxy miny) (JS.of_nat n))
              (default [] slopeRanges) slopeGrid Harr 0)
    as (fs & Hrun & Hlen & Hget & _).
  assert (Hn : length slopeGrid = n) by (destruct Hsq; assumption).
  exists fs. split; [|split].
  - unfold tessellate. rewrite Hbox, (size_of_square n slopeGrid grid_size Hn Hsize).
    exact Hrun.
  - rewrite Hlen, (square_cells_before n slopeGrid (length slopeGrid) Hsq) by lia.
    rewrite Hn. reflexivity.
  - intros r c Hr Hc.
    destruct (square_cell_at n slopeGrid r c Hsq Hr Hc) as [v Hv].
    exists v. split; [exact Hv|].
    rewrite <- (square_cells_before n slopeGrid r Hsq) by lia.
    apply (Hget r c v Hv).
Qed.

(** C2.  An [n] by [n] grid with a bbox string of four finite numbers
    tessellates into exactly [n * n] features.  The feature of row [r],
    column [c] sits at position [r * n + c]; its polygon is the closed
    five-point ring from [(x0, y0)] with [x0 = minX + c * dx],
    [y0 = minY + r * dy], [dx = (maxX - minX) / n], [dy = (maxY - minY) / n],
    all in binary64 arithmetic; its [slope] is the cell value rounded to
    one decimal ([Math.round(v * 10) / 10]: the binary64 value of a
    multiple of one tenth, no further from [v] than one twentieth and
    the rounding of the two operations) and its [color] is [classify] of
    the value.  For a bbox
    whose coordinates are binary64 values of magnitude at most 512 (any
    longitude and latitude) and fewer than 2^32 rows, the first corner of
    cell (0,0) is [(minX, minY)] exactly and the third corner of cell
    (n-1,n-1) is [(maxX, maxY)] to within [2^-38].  The bbox need not
    be ordered for any of this. *)
Theorem tessellate_square (Number : string -> number) (n : nat)
    (slopeGrid : list row) (bboxStr : string) (grid_size : option number)
    (slopeRanges : option (list Range.t)) (minX minY maxX maxY : Q) :
  square n slopeGrid ->
  parse_bbox Number bboxStr = [Num minX; Num minY; Num maxX; Num maxY] ->
  grid_size = None \/ grid_size = Some (JS.of_nat n) ->
  let dx := JS.div (JS.sub (Num maxX) (Num minX)) (JS.of_nat n) in
  let dy := JS.div (JS.sub (Num maxY) (Num minY)) (JS.of_nat n) in
  exists fs,
    tessellate Number slopeGrid bboxStr grid_size slopeRanges = JS.Ok fs
    /\ length fs = (n * n)%nat
    /\ (forall r c, (r < n)%nat -> (c < n)%nat ->
          exists v, cell_at slopeGrid r c = Some v
          /\ let x0 := JS.add (Num minX) (JS.mul (JS.of_nat c) dx) in
             let y0 := JS.add (Num minY) (JS.mul (JS.of_nat r) dy) in
             fs !! (r * n + c)%nat
             = Some (Feature.mk "Feature"
                       (Feature.mkGeometry "Polygon"
                          [[ (x0, y0);
                             (JS.add x0 dx, y0);
                             (JS.add x0 dx, JS.add y0 dy);
                             (x0, JS.add y0 dy);
                             (x0, y0) ]])
                       (Feature.mkProperties (round1 v)
                          (classify v (default [] slopeRanges)))))
    /\ (forall q : Q, (Qabs q <= JS.pow2 1000)%Q ->
          exists (z : Z) (s : Q),
            round1 (Num q) = Num s
            /\ JS.round64 (inject_Z z / 10) = Num s
            /\ (Qabs (s - q) <= (1 # 20) + (Qabs q + 1) * JS.pow2 (-51))%Q)
    /\ ((0 < n)%nat -> (Z.of_nat n < 2 ^ 32)%Z ->
        (Qabs minX <= 512)%Q -> (Qabs maxX <= 512)%Q ->
        (Qabs minY <= 512)%Q -> (Qabs maxY <= 512)%Q ->
        (is_double minX -> is_double minY ->
         exists f x y, fs !! 0%nat = Some f
           /\ ring f !! 0%nat = Some (Num x, Num y)
           /\ (x == minX)%Q /\ (y == minY)%Q)
        /\ (exists f x y, fs !! (n * n - 1)%nat = Some f
           /\ ring f !! 2%nat = Some (Num x, Num y)
           /\ (Qabs (x - maxX) <= JS.pow2 (-38))%Q
           /\ (Qabs (y - maxY) <= JS.pow2 (-38))%Q)).
Proof.
  intros Hsq Hbox Hsize dx dy.
  destruct (square_cells Number n slopeGrid bboxStr grid_size slopeRanges
              (Num minX) (Num minY) (Num maxX) (Num maxY) Hsq Hbox Hsize)
    as (fs & Hrun & Hlen & Hcell).
  exists fs. split; [exact Hrun|]. split; [exact Hlen|].
  split; [|split].
  - intros r c Hr Hc. destruct (Hcell r c Hr Hc) as (v & Hv & Hf).
    exists v. split; [exact Hv|]. exact Hf.
  - exact round1_spec.
  - intros Hpos Hn32 HminX HmaxX HminY HmaxY. split.
    + intros HdX HdY.
      destruct (Hcell 0%nat 0%nat Hpos Hpos) as (v & _ & Hf).
      change (0 * n + 0)%nat with 0%nat in Hf.
      destruct (axis_points minX maxX n 0 HminX HmaxX Hpos Hn32 Hpos)
        as (dqx & _ & _ & Hdx & _).
      destruct (axis_points minY maxY n 0 HminY HmaxY Hpos Hn32 Hpos)
        as (dqy & _ & _ & Hdy & _).
      rewrite Hdx, Hdy in Hf. unfold cell in Hf.
      change (JS.mul (JS.of_nat 0) (Num dqx)) with (JS.round64 (0 * dqx)) in Hf.
      change (JS.mul (JS.of_nat 0) (Num dqy)) with (JS.round64 (0 * dqy)) in Hf.
      rewrite (round64_zero (0 * dqx)), (round64_zero (0 * dqy)) in Hf by ring.
      change (JS.add (Num minX) (Num 0)) with (JS.round64 (minX + 0)) in Hf.
      change (JS.add (Num minY) (Num 0)) with (JS.round64 (minY + 0)) in Hf.
      rewrite (round64_morph (minX + 0) minX), (round64_morph (minY + 0) minY) in Hf
        by ring.
      unfold is_double in HdX, HdY.
      destruct (JS.round64 minX) as [| | |x]; try contradiction.
      destruct (JS.round64 minY) as [| | |y]; try contradiction.
      eexists; exists x, y. split; [exact Hf|]. split; [reflexivity|].
      split; assumption.
    + assert (Hlast : (n - 1 < n)%nat) by lia.
      destruct (Hcell (n - 1)%nat (n - 1)%nat Hlast Hlast) as (v & _ & Hf).
      replace ((n - 1) * n + (n - 1))%nat with (n * n - 1)%nat in Hf by nia.
      destruct (axis_points minX maxX n (n - 1) HminX HmaxX Hpos Hn32 Hlast)
        as (dqx & x0 & x1 & Hdx & Hx0 & Hx1 & _ & Hex).
      destruct (axis_points minY maxY n (n - 1) HminY HmaxY Hpos Hn32 Hlast)
        as (dqy & y0 & y1 & Hdy & Hy0 & Hy1 & _ & Hey).
      rewrite Hdx, Hdy in Hf. unfold cell in Hf.
      rewrite Hx0, Hy0, Hx1, Hy1 in Hf.
      assert (Hq : (inject_Z (Z.of_nat (n - 1)) + 1 == inject_Z (Z.of_nat n))%Q).
      { rewrite Nat2Z.inj_sub by lia. unfold Zminus.
        rewrite inject_Z_plus, inject_Z_opp. change (inject_Z (Z.of_nat 1)) with 1%Q.
        ring. }
      assert (Hnz : ~ (inject_Z (Z.of_nat n) == 0)%Q).
      { unfold Qeq. simpl. lia. }
      eexists; exists x1, y1. split; [exact Hf|]. split; [reflexivity|].
      split.
      * assert (Ht : (minX + (inject_Z (Z.of_nat (n - 1)) + 1)
                             * ((maxX - minX) / inject_Z (Z.of_nat n)) == maxX)%Q)
          by (rewrite Hq; field; exact Hnz).
        rewrite Ht in Hex. exact Hex.
      * assert (Ht : (minY + (inject_Z (Z.of_nat (n - 1)) + 1)
                             * ((maxY - minY) / inject_Z (Z.of_nat n)) == maxY)%Q)
          by (rewrite Hq; field; exact Hnz).
        rewrite Ht in Hey. exact Hey.
Qed.

Lemma tessellate_square_witness :
  exists fs,
    tessellate sample_Number
      [Cells [Num 1; Num 2]; Cells [Num 30; Num 80]] "0,0,2,2" None
      (Some DEFAULT_RANGES) = JS.Ok fs
    /\ length fs = 4%nat
    /\ exists f x y, fs !! 3%nat = Some f
         /\ ring f !! 2%nat = Some (Num x, Num y)
         /\ (Qabs (x - 2) <= JS.pow2 (-38))%Q
         /\ (Qabs (y - 2) <= JS.pow2 (-38))%Q.
Proof.
  destruct (tessellate_square sample_Number 2
              [Cells [Num 1; Num 2]; Cells [Num 30; Num 80]] "0,0,2,2" None
              (Some DEFAULT_RANGES) 0 0 2 2) as (fs & Hrun & Hlen & _ & _ & Hcorner).
  - split; [reflexivity|]. repeat constructor; discriminate.
  - reflexivity.
  - left. reflexivity.
  - exists fs. split; [exact Hrun|]. split; [exact Hlen|].
    apply Hcorner; first [lia | reflexivity | discriminate].
Defined.

(** The rounding is the source's: a cell value of [0.35] gets the slope
    [0.4], the last corner of a 15 by 15 grid over [0,0,3,3] is
    [3.0000000000000004], and over [-70,-27,-69.5,-26.5] with 30 columns
    the right edge of column 7 and the left edge of column 8 differ in
    the last place. *)
Lemma binary64_examples :
  round1 (JS.round64 (35 # 100)) = JS.round64 (4 # 10)
  /\ (let dx := JS.div (JS.sub (Num 3) (Num 0)) (JS.of_nat 15) in
      JS.add (JS.add (Num 0) (JS.mul (JS.of_nat 14) dx)) dx
      = Num (3 + JS.pow2 (-51)))
  /\ (let dx := JS.div (JS.sub (Num (- (139 # 2))) (Num (- 70))) (JS.of_nat 30) in
      JS.add (JS.add (Num (- 70)) (JS.mul (JS.of_nat 7) dx)) dx
      <> JS.add (Num (- 70)) (JS.mul (JS.of_nat 8) dx)).
Proof. vm_compute. repeat split. discriminate. Qed.

(** C7.  On a grid whose rows are arrays of any lengths the tessellation
    does not throw: it returns one feature per cell actually present, row
    after row, so a short row only contributes the cells it has. *)
Theorem tessellate_ragged (Number : string -> number) (slopeGrid : list row)
    (bboxStr : string) (grid_size : option number)
    (slopeRanges : option (list Range.t)) :
  all_arrays slopeGrid ->
  exists fs minx miny dx dy,
    tessellate Number slopeGrid bboxStr grid_size slopeRanges = JS.Ok fs
    /\ length fs = cells_before slopeGrid (length slopeGrid)
    /\ (forall r c v, cell_at slopeGrid r c = Some v ->
          fs !! (cells_before slopeGrid r + c)%nat
          = Some (cell minx miny dx dy (default [] slopeRanges) r c v)).
Proof.
  intros Harr. unfold tessellate.
  set (b := parse_bbox Number bboxStr).
  set (n := JS.num_or grid_size (JS.of_nat (length slopeGrid))).
  destruct (rows_from_spec (item b 0) (item b 1)
              (JS.div (JS.sub (item b 2) (item b 0)) n)
              (JS.div (JS.sub (item b 3) (item b 1)) n)
              (default [] slopeRanges) slopeGrid Harr 0)
    as (fs & Hrun & Hlen & Hget & _).
  exists fs, (item b 0), (item b 1),
    (JS.div (JS.sub (item b 2) (item b 0)) n),
    (JS.div (JS.sub (item b 3) (item b 1)) n).
  split; [exact Hrun|]. split; [exact Hlen|]. exact Hget.
Qed.

Lemma tessellate_ragged_witness :
  exists fs,
    tessellate sample_Number
      [Cells [Num 1; Num 2; Num 3]; Cells [Num 30]; Cells []] "0,0,3,3"
      (Some (Num 3)) (Some DEFAULT_RANGES) = JS.Ok fs
    /\ length fs = 4%nat.
Proof.
  destruct (tessellate_ragged sample_Number
              [Cells [Num 1; Num 2; Num 3]; Cells [Num 30]; Cells []] "0,0,3,3"
              (Some (Num 3)) (Some DEFAULT_RANGES))
    as (fs & _ & _ & _ & _ & Hrun & Hlen & _).
  - repeat constructor; discriminate.
  - exists fs. split; [exact Hrun | exact Hlen].
Defined.

(** A row that is [null] is a different matter: reading its length throws
    and the effect aborts. *)
Lemma tessellate_null_row_throws :
  tessellate sample_Number [Cells [Num 1]; NullRow] "0,0,2,2" None None
  = JS.Throw "TypeError".
Proof. reflexivity. Qed.

(** C6.  With an empty range table every value is classified to the
    default gray, and a tessellation run with an empty or missing table
    completes with every feature coloured gray. *)
Theorem classify_empty_default :
  (forall v : number, classify v [] = "#888888")
  /\
  (forall (Number : string -> number) (slopeGrid : list row) (bboxStr : string)
          (grid_size : option number) (slopeRanges : option (list Range.t)),
      slopeRanges = None \/ slopeRanges = Some [] ->
      all_arrays slopeGrid ->
      exists fs,
        tessellate Number slopeGrid bboxStr grid_size slopeRanges = JS.Ok fs
        /\ length fs = cells_before slopeGrid (length slopeGrid)
        /\ Forall (fun f => Feature.color (Feature.props f) = "#888888") fs).
Proof.
  split; [reflexivity|].
  intros Number slopeGrid bboxStr grid_size slopeRanges Hempty Harr.
  assert (Hr : default [] slopeRanges = []) by (destruct Hempty as [->| ->]; reflexivity).
  unfold tessellate. rewrite Hr.
  set (b := parse_bbox Number bboxStr).
  set (n := JS.num_or grid_size (JS.of_nat (length slopeGrid))).
  destruct (rows_from_spec (item b 0) (item b 1)
              (JS.div (JS.sub (item b 2) (item b 0)) n)
              (JS.div (JS.sub (item b 3) (item b 1)) n)
              [] slopeGrid Harr 0)
    as (fs & Hrun & Hlen & _ & Hall).
  exists fs. split; [exact Hrun|]. split; [exact Hlen|].
  apply Forall_forall. intros f Hf.
  destruct (Hall f Hf) as (r & c & v & ->). reflexivity.
Qed.

Lemma classify_empty_default_witness :
  exists fs,
    tessellate sample_Number [Cells [Num 1; Num 80]] "0,0,1,1" None None = JS.Ok fs
    /\ Forall (fun f => Feature.color (Feature.props f) = "#888888") fs.
Proof.
  destruct (proj2 classify_empty_default sample_Number [Cells [Num 1; Num 80]]
              "0,0,1,1" None None) as (fs & Hrun & _ & Hall).
  - left. reflexivity.
  - repeat constructor; discriminate.
  - exists fs. split; [exact Hrun | exact Hall].
Defined.

(* ===================================================================== *)
(** ** BoundingBoxDrawer *)
(* ===================================================================== *)

Lemma abs_neg (x : number) : JS.abs (JS.neg x) = JS.abs x.
Proof.
  destruct x as [| | |[n d]]; try reflexivity.
  cbn [JS.neg JS.abs]. unfold Qopp, Qabs. cbn [Qnum Qden].
  rewrite Z.abs_opp. reflexivity.
Qed.

Lemma sub_num (a b : Q) : JS.sub (Num b) (Num a) = JS.round64 (b - a).
Proof. reflexivity. Qed.

Lemma sub_swap (a b : Q) : JS.sub (Num b) (Num a) = JS.neg (JS.sub (Num a) (Num b)).
Proof.
  rewrite !sub_num, <- round64_opp. apply round64_morph. ring.
Qed.

Lemma sub_same (a b : Q) : (a == b)%Q -> JS.sub (Num b) (Num a) = Num 0.
Proof. intros H. rewrite sub_num. apply round64_zero. rewrite H. ring. Qed.

(** The literal [0.001] is the binary64 value next to one thousandth. *)
Lemma threshold_value :
  JS.round64 (1 # 1000) = Num (1152921504606847 # 1152921504606846976).
Proof. vm_compute. reflexivity. Qed.

(** A distance that passes the test against the literal exceeds one
    thousandth. *)
Lemma accepted_exceeds_thousandth (x : number) :
  JS.gt x (JS.round64 (1 # 1000)) = true -> JS.gt x (Num (1 # 1000)) = true.
Proof.
  rewrite threshold_value. destruct x as [| | |x]; try (intros H; exact H).
  unfold JS.gt. cbn [JS.compare].
  destruct (Qcompare_spec x (1152921504606847 # 1152921504606846976)) as [H|H|H];
    try discriminate.
  intros _. destruct (Qcompare_spec x (1 # 1000)) as [H1|H1|H1]; try reflexivity;
    exfalso; lra.
Qed.

(** The extent between the smaller and the larger coordinate is the
    distance between the two coordinates. *)
Lemma span_abs (a b e : number) :
  JS.gt (JS.abs (JS.sub (JS.max a b) (JS.min a b))) e
  = JS.gt (JS.abs (JS.sub b a)) e.
Proof.
  destruct a as [| | |a], b as [| | |b]; try reflexivity.
  unfold JS.max, JS.min. cbn [JS.compare].
  destruct (Qcompare_spec a b) as [H|H|H].
  - rewrite (sub_same a a), (sub_same a b) by (exact H || reflexivity). reflexivity.
  - reflexivity.
  - rewrite (sub_swap a b), abs_neg. reflexivity.
Qed.

Lemma gt_zero (e : number) : JS.le (Num 0) e = true -> JS.gt (JS.abs (Num 0)) e = false.
Proof.
  destruct e as [| | |e]; try reflexivity; try discriminate.
  unfold JS.le, JS.gt. cbn [JS.abs JS.compare]. change (Qabs 0) with 0%Q.
  destruct (0 ?= e)%Q; (reflexivity || discriminate).
Qed.


(** A positive distance separates the smaller from the larger coordinate. *)
Lemma span_ordered (a b e : number) :
  JS.le (Num 0) e = true ->
  JS.gt (JS.abs (JS.sub b a)) e = true ->
  JS.lt (JS.min a b) (JS.max a b) = true.
Proof.
  intros He.
  destruct a as [| | |a], b as [| | |b]; try reflexivity; try discriminate.
  unfold JS.max, JS.min, JS.lt. cbn [JS.compare].
  destruct (Qcompare_spec a b) as [H|H|H].
  - rewrite (sub_same a b H), (gt_zero e He). discriminate.
  - intros _. cbn [JS.compare]. destruct (Qcompare_spec a b) as [H1|H1|H1]; [lra | reflexivity | lra].
  - intros _. cbn [JS.compare]. destruct (Qcompare_spec b a) as [H1|H1|H1]; [lra | reflexivity | lra].
Qed.

(** C3.  A pointer-up that ends a gesture started at [s] clears the
    session.  With [p] the released point, it calls [onRectangleDrawn]
    exactly when both [|p.lng - s.lng|] and [|p.lat - s.lat|] exceed 0.001,
    and then passes the four numbers min/min/max/max of the two corners,
    printed as they are and joined by commas; these satisfy
    [minX < maxX] and [minY < maxY].  Otherwise no call is made. *)
Theorem mouseup_commit (toString : number -> string)
    (unproject : number * number -> LngLat) (e : MouseEvent) (s : LngLat) :
  let p := unproject (offsetX e, offsetY e) in
  let wide := JS.gt (JS.abs (JS.sub (lng p) (lng s))) (JS.round64 (1 # 1000)) in
  let tall := JS.gt (JS.abs (JS.sub (lat p) (lat s))) (JS.round64 (1 # 1000)) in
  let minX := JS.min (lng s) (lng p) in
  let minY := JS.min (lat s) (lat p) in
  let maxX := JS.max (lng s) (lng p) in
  let maxY := JS.max (lat s) (lat p) in
  mouseup toString unproject true e (Some s)
  = (None,
     if wide && tall
     then Some (toString minX +:+ "," +:+ toString minY +:+ ","
                +:+ toString maxX +:+ "," +:+ toString maxY)
     else None)
  /\ (wide && tall = true ->
      JS.lt minX maxX = true /\ JS.lt minY maxY = true).
Proof.
  intros p wide tall minX minY maxX maxY. split.
  - unfold mouseup. fold p. fold minX minY maxX maxY.
    unfold maxX, minX, maxY, minY. rewrite !span_abs. reflexivity.
  - intros H. apply andb_prop in H as [Hw Ht]. split.
    + apply (span_ordered _ _ (JS.round64 (1 # 1000))); [reflexivity | exact Hw].
    + apply (span_ordered _ _ (JS.round64 (1 # 1000))); [reflexivity | exact Ht].
Qed.

(** The two gestures of the specification's examples. *)
Lemma mouseup_example_commit :
  mouseup sample_toString sample_unproject true
    (mkMouseEvent (Num (- (139 # 2))) (Num (- (53 # 2))))
    (mousedown sample_unproject (mkMouseEvent (Num (- 70)) (Num (- 27))) None)
  = (None, Some "-70,-27,-139/2,-53/2").
Proof. vm_compute. reflexivity. Qed.

Lemma mouseup_example_discard :
  mouseup sample_toString sample_unproject true
    (mkMouseEvent (Num (- (700005 # 10000))) (Num (- (270003 # 10000))))
    (mousedown sample_unproject (mkMouseEvent (Num (- 70)) (Num (- 27))) None)
  = (None, None).
Proof. vm_compute. reflexivity. Qed.

(** Without a session a pointer-up neither starts nor reports anything. *)
Lemma mouseup_idle (toString : number -> string)
    (unproject : number * number -> LngLat) (cb : bool) (e : MouseEvent) :
  mouseup toString unproject cb e None = (None, None).
Proof. reflexivity. Qed.

(* ===================================================================== *)
(** ** OverlaySyncer *)
(* ===================================================================== *)

Lemma existsb_Forall_false {A} (f : A -> bool) (l : list A) :
  Forall (fun x => f x = false) l -> existsb f l = false.
Proof.
  induction 1 as [|x l Hx _ IH]; [reflexivity|]. simpl. rewrite Hx, IH. reflexivity.
Qed.

Lemma filter_Forall_false {A} (f : A -> bool) (l : list A) :
  Forall (fun x => f x = false) l -> List.filter f l = [].
Proof.
  induction 1 as [|x l Hx _ IH]; [reflexivity|]. simpl. rewrite Hx, IH. reflexivity.
Qed.

Lemma map_Forall_id {A} (f : A -> A) (l : list A) :
  Forall (fun x => f x = x) l -> List.map f l = l.
Proof.
  induction 1 as [|x l Hx _ IH]; [reflexivity|]. simpl. rewrite Hx, IH. reflexivity.
Qed.

(** Re-applying the fill colour the layer was created with changes
    nothing. *)
Lemma repaint_fill_layer :
  Layer.set_paint "fill-color" (PExpr ["get"; "color"]) slope_fill_layer
  = slope_fill_layer.
Proof.
  unfold Layer.set_paint, slope_fill_layer.
  cbn [Layer.id Layer.type Layer.source Layer.paint].
  rewrite insert_insert_eq. reflexivity.
Qed.

Lemma painted_with_data (fc : FeatureCollection) (m : MapGL.t) :
  painted m -> painted (with_data fc m).
Proof.
  destruct m as [srcs lays hs].
  unfold painted, MapGL.setPaintProperty, with_data. simpl.
  intros H. injection H as H. rewrite H. reflexivity.
Qed.

(** Creation: what the first upsert builds on a map without the overlay. *)
Lemma upsert_creates (fc : FeatureCollection) (m : MapGL.t) :
  no_slope_overlay m ->
  upsert_slope_cells fc m
  = JS.Ok (MapGL.mk
             (<["slope-cells" := GeoJSON fc]> (MapGL.sources m))
             ((MapGL.layers m ++ [slope_fill_layer]) ++ [slope_outline_layer])
             (((MapGL.listeners m
                ++ [Listener.mk "click" "slope-cells" SlopePopup])
                ++ [Listener.mk "mouseenter" "slope-cells" CursorPointer])
                ++ [Listener.mk "mouseleave" "slope-cells" CursorReset])).
Proof.
  intros (Hsrc & Hlay & _). unfold upsert_slope_cells. rewrite Hsrc.
  unfold MapGL.getSource in Hsrc. unfold MapGL.addSource. rewrite Hsrc.
  cbn [mbind result_bind].
  unfold MapGL.addLayer at 2. cbn [MapGL.layers MapGL.sources MapGL.listeners].
  rewrite existsb_Forall_false.
  2:{ eapply Forall_impl; [exact Hlay|]. intros l (H1 & _ & _).
      unfold MapGL.has_id. apply bool_decide_eq_false. exact H1. }
  change (Layer.source slope_fill_layer) with "slope-cells".
  rewrite lookup_insert_eq.
  unfold MapGL.addLayer. cbn [MapGL.layers MapGL.sources MapGL.listeners].
  rewrite existsb_app, existsb_Forall_false.
  2:{ eapply Forall_impl; [exact Hlay|]. intros l (_ & H2 & _).
      unfold MapGL.has_id. apply bool_decide_eq_false. exact H2. }
  change (Layer.source slope_outline_layer) with "slope-cells".
  rewrite lookup_insert_eq.
  reflexivity.
Qed.

(** Update: on a map that has the source, an upsert replaces its data. *)
Lemma upsert_updates (fc0 fc : FeatureCollection) (m : MapGL.t) :
  MapGL.getSource "slope-cells" m = Some (GeoJSON fc0) ->
  painted m ->
  upsert_slope_cells fc m = JS.Ok (with_data fc m).
Proof.
  intros Hsrc Hp. unfold upsert_slope_cells. rewrite Hsrc.
  unfold MapGL.getSource in Hsrc. unfold MapGL.setData. rewrite Hsrc.
  cbn [mbind result_bind]. f_equal.
  apply (painted_with_data fc m Hp).
Qed.

Lemma last_cons_default {A} (x d : A) (l : list A) :
  List.last (x :: l) d = List.last l x.
Proof.
  revert x d. induction l as [|y l IH]; intros x d; [reflexivity|].
  change (List.last (x :: y :: l) d) with (List.last (y :: l) d).
  rewrite (IH y d), (IH y x). reflexivity.
Qed.

Lemma upserts_update (fcs : list FeatureCollection) :
  forall (fc0 : FeatureCollection) (m : MapGL.t),
    MapGL.getSource "slope-cells" m = Some (GeoJSON fc0) ->
    painted m ->
    exists m', upserts fcs m = JS.Ok m'
      /\ MapGL.layers m' = MapGL.layers m
      /\ MapGL.listeners m' = MapGL.listeners m
      /\ MapGL.getSource "slope-cells" m' = Some (GeoJSON (List.last fcs fc0)).
Proof.
  induction fcs as [|fc rest IH]; intros fc0 m Hsrc Hp.
  - exists m. repeat split. exact Hsrc.
  - simpl upserts. rewrite (upsert_updates fc0 fc m Hsrc Hp).
    cbn [mbind result_bind].
    destruct (IH fc (with_data fc m)) as (m' & Hrun & Hl & Hh & Hs).
    + unfold MapGL.getSource, with_data. simpl. apply lookup_insert_eq.
    + apply painted_with_data. exact Hp.
    + exists m'. split; [exact Hrun|]. split; [exact Hl|]. split; [exact Hh|].
      rewrite Hs. f_equal. f_equal. symmetry. apply last_cons_default.
Qed.

Lemma created_painted (srcs : gmap string source) (lays : list Layer.t)
    (hs : list Listener.t) :
  Forall (fun l => Layer.id l <> "slope-cells"
                   /\ Layer.id l <> "slope-cells-outline"
                   /\ Layer.source l <> "slope-cells") lays ->
  painted (MapGL.mk srcs ((lays ++ [slope_fill_layer]) ++ [slope_outline_layer]) hs).
Proof.
  intros Hlay. unfold painted, MapGL.setPaintProperty.
  cbn [MapGL.layers MapGL.sources MapGL.listeners]. f_equal.
  rewrite !List.map_app, map_Forall_id.
  - change ((lays ++ [Layer.set_paint "fill-color" (PExpr ["get"; "color"])
                        slope_fill_layer]) ++ [slope_outline_layer]
            = (lays ++ [slope_fill_layer]) ++ [slope_outline_layer]).
    rewrite repaint_fill_layer. reflexivity.
  - eapply Forall_impl; [exact Hlay|].
    intros l (H1 & _ & _). unfold MapGL.has_id.
    rewrite bool_decide_eq_false_2 by exact H1. reflexivity.
Qed.

(** On a map on which the slope overlay has never been shown, and so
    without listeners of its own, an upsert of [fc1] followed
    by an upsert of [fc2] leaves one slope source, holding [fc2], the fill
    layer and the outline layer once each, and the three listeners once
    each.  The second call changes nothing but the data of the source, and
    so does every later upsert: layers and listeners never grow. *)
Theorem upsert_twice (fc1 fc2 : FeatureCollection) (m : MapGL.t) :
  no_slope_overlay m ->
  exists m1 m2,
    upsert_slope_cells fc1 m = JS.Ok m1
    /\ upsert_slope_cells fc2 m1 = JS.Ok m2
    /\ MapGL.getSource "slope-cells" m2 = Some (GeoJSON fc2)
    /\ slope_layers m2 = [slope_fill_layer; slope_outline_layer]
    /\ slope_listeners m2
       = [Listener.mk "click" "slope-cells" SlopePopup;
          Listener.mk "mouseenter" "slope-cells" CursorPointer;
          Listener.mk "mouseleave" "slope-cells" CursorReset]
    /\ m2 = with_data fc2 m1
    /\ (forall fcs : list FeatureCollection, exists m',
          upserts fcs m2 = JS.Ok m'
          /\ MapGL.layers m' = MapGL.layers m2
          /\ MapGL.listeners m' = MapGL.listeners m2).
Proof.
  intros Hfresh. pose proof Hfresh as (Hsrc & Hlay & Hlis).
  eexists. eexists.
  split; [apply (upsert_creates fc1 m Hfresh)|].
  assert (Hp := created_painted (<["slope-cells" := GeoJSON fc1]> (MapGL.sources m))
                  (MapGL.layers m)
                  (((MapGL.listeners m
                     ++ [Listener.mk "click" "slope-cells" SlopePopup])
                     ++ [Listener.mk "mouseenter" "slope-cells" CursorPointer])
                     ++ [Listener.mk "mouseleave" "slope-cells" CursorReset]) Hlay).
  split; [apply (upsert_updates fc1 fc2); [apply lookup_insert_eq | exact Hp]|].
  split; [apply lookup_insert_eq|].
  split; [|split; [|split]].
  - unfold slope_layers, with_data. cbn [MapGL.layers].
    rewrite !List.filter_app, filter_Forall_false; [reflexivity|].
    eapply Forall_impl; [exact Hlay|]. intros l (_ & _ & H3).
    unfold MapGL.uses. apply bool_decide_eq_false. exact H3.
  - unfold slope_listeners, with_data. cbn [MapGL.listeners].
    rewrite !List.filter_app, filter_Forall_false; [reflexivity|].
    eapply Forall_impl; [exact Hlis|]. intros h H.
    apply bool_decide_eq_false. exact H.
  - reflexivity.
  - intros fcs.
    destruct (upserts_update fcs fc2
                (with_data fc2
                   (MapGL.mk (<["slope-cells" := GeoJSON fc1]> (MapGL.sources m))
                      ((MapGL.layers m ++ [slope_fill_layer]) ++ [slope_outline_layer])
                      (((MapGL.listeners m
                         ++ [Listener.mk "click" "slope-cells" SlopePopup])
                         ++ [Listener.mk "mouseenter" "slope-cells" CursorPointer])
                         ++ [Listener.mk "mouseleave" "slope-cells" CursorReset]))))
      as (m' & Hrun & Hl & Hh & _).
    + apply lookup_insert_eq.
    + apply painted_with_data. exact Hp.
    + exists m'. split; [exact Hrun|]. split; [exact Hl | exact Hh].
Qed.

Lemma upsert_twice_witness :
  exists m2,
    upserts [mkFC "FeatureCollection" []; mkFC "FeatureCollection" []] MapGL.initial
    = JS.Ok m2
    /\ length (slope_layers m2) = 2%nat
    /\ length (slope_listeners m2) = 3%nat.
Proof.
  destruct (upsert_twice (mkFC "FeatureCollection" []) (mkFC "FeatureCollection" [])
              MapGL.initial) as (m1 & m2 & H1 & H2 & _ & Hl & Hh & _).
  - split; [reflexivity|]. split; repeat constructor; discriminate.
  - exists m2. split; [simpl; rewrite H1; simpl; rewrite H2; reflexivity|].
    rewrite Hl, Hh. split; reflexivity.
Defined.

(** The effect does nothing before the map exists or has loaded. *)
Lemma slope_effect_not_ready (Number : string -> number) (mapRef : option MapGL.t)
    (loaded : bool) (slopeData : option SlopeData)
    (slopeRanges : option (list Range.t)) :
  mapRef = None \/ loaded = false ->
  slope_effect Number mapRef loaded slopeData slopeRanges = JS.Ok mapRef.
Proof.
  intros [-> | ->]; [reflexivity|]. destruct mapRef; reflexivity.
Qed.

(** With a grid and a bbox string it tessellates and upserts the result. *)
Lemma slope_effect_ready (Number : string -> number) (map : MapGL.t)
    (d : SlopeData) (slopeGrid : list row) (bboxStr : string)
    (slopeRanges : option (list Range.t)) :
  slopes_percent d = Some slopeGrid -> bbox d = Some bboxStr -> bboxStr <> "" ->
  slope_effect Number (Some map) true (Some d) slopeRanges
  = (features ← tessellate Number slopeGrid bboxStr (grid_size d) slopeRanges;
     map ← upsert_slope_cells (mkFC "FeatureCollection" features) map;
     JS.Ok (Some map)).
Proof.
  intros Hg Hb Hne. unfold slope_effect. rewrite Hg, Hb. simpl negb.
  destruct bboxStr; [contradiction | reflexivity].
Qed.

(* ===================================================================== *)
(** ** RangeTable *)
(* ===================================================================== *)

Lemma filter_index_delete {A} (l : list A) (idx k : nat) :
  filter_index (fun i => negb (i =? idx)%nat) k l
  = if (idx <? k)%nat then l else delete (idx - k)%nat l.
Proof.
  revert k. induction l as [|x rest IH]; intros k.
  - destruct (idx <? k)%nat; reflexivity.
  - simpl filter_index. rewrite (IH (S k)).
    destruct (Nat.ltb_spec idx k) as [Hlt|Hge].
    + rewrite (proj2 (Nat.eqb_neq k idx)) by lia. simpl.
      rewrite (proj2 (Nat.ltb_lt idx (S k))) by lia. reflexivity.
    + destruct (Nat.eqb_spec k idx) as [->|Hne]; simpl.
      * rewrite (proj2 (Nat.ltb_lt idx (S idx))) by lia.
        rewrite Nat.sub_diag. reflexivity.
      * rewrite (proj2 (Nat.ltb_ge idx (S k))) by lia.
        replace (idx - k)%nat with (S (idx - S k)) by lia. reflexivity.
Qed.

(** C8.  Deleting from a table of two entries or fewer does nothing: the
    handler returns without reporting a change.  On a longer table it
    reports the table without entry [idx], the others in their order.  A
    table that has at least two entries keeps at least two under every
    handler. *)
Theorem delete_range (parseFloat : string -> number) (toString : number -> string)
    (ranges : list Range.t) (idx : nat) :
  ((length ranges <= 2)%nat -> handleDeleteRange ranges idx = JS.Ok NotCalled)
  /\ ((2 < length ranges)%nat ->
      handleDeleteRange ranges idx = JS.Ok (Changed (delete idx ranges))
      /\ delete idx ranges = take idx ranges ++ drop (S idx) ranges
      /\ ((idx < length ranges)%nat ->
          length (delete idx ranges) = (length ranges - 1)%nat))
  /\ ((2 <= length ranges)%nat ->
      (exists u, handleDeleteRange ranges idx = JS.Ok u
         /\ match u with
            | Changed updated => (2 <= length updated)%nat
            | NotCalled => True
            | Grown _ _ _ _ _ => False
            end)
      /\ (exists updated, handleAddRange toString ranges = JS.Ok (Changed updated)
            /\ length updated = S (length ranges))
      /\ (forall c v, (idx < length ranges)%nat ->
            exists u1 u2 u3,
              handleRangeColorChange ranges idx c = JS.Ok (Changed u1)
              /\ handleRangeMinChange parseFloat toString ranges idx v = JS.Ok (Changed u2)
              /\ handleRangeMaxChange parseFloat toString ranges idx v = JS.Ok (Changed u3)
              /\ length u1 = length ranges /\ length u2 = length ranges
              /\ length u3 = length ranges)).
Proof.
  assert (Hdel : (2 < length ranges)%nat ->
            handleDeleteRange ranges idx = JS.Ok (Changed (delete idx ranges))).
  { intros Hlen. unfold handleDeleteRange.
    rewrite (proj2 (Nat.leb_gt (length ranges) 2)) by lia.
    rewrite filter_index_delete. simpl. rewrite Nat.sub_0_r. reflexivity. }
  split; [|split].
  - intros Hlen. unfold handleDeleteRange.
    rewrite (proj2 (Nat.leb_le (length ranges) 2)) by lia. reflexivity.
  - intros Hlen. split; [exact (Hdel Hlen)|]. split.
    + apply delete_take_drop.
    + intros Hidx. apply length_delete. apply lookup_lt_is_Some_2. exact Hidx.
  - intros Hlen. split; [|split].
    + destruct (Nat.le_gt_cases (length ranges) 2) as [Hle|Hgt].
      * exists NotCalled. split; [|exact I]. unfold handleDeleteRange.
        rewrite (proj2 (Nat.leb_le (length ranges) 2)) by lia. reflexivity.
      * exists (Changed (delete idx ranges)). split; [exact (Hdel Hgt)|].
        destruct (Nat.lt_ge_cases idx (length ranges)) as [Hin|Hout].
        -- rewrite length_delete by (apply lookup_lt_is_Some_2; exact Hin). lia.
        -- rewrite delete_take_drop, take_ge, drop_ge by lia.
           rewrite app_nil_r. lia.
    + eexists. split; [reflexivity|]. rewrite length_app. simpl. lia.
    + intros c v Hidx.
      destruct (lookup_lt_is_Some_2 ranges idx Hidx) as [r Hr].
      unfold handleRangeColorChange, handleRangeMinChange, handleRangeMaxChange.
      rewrite Hr. do 3 eexists.
      split; [reflexivity|]. split; [reflexivity|]. split; [reflexivity|].
      rewrite !length_insert. repeat split.
Qed.

Lemma delete_range_witness :
  handleDeleteRange (take 2 DEFAULT_RANGES) 0 = JS.Ok NotCalled
  /\ handleDeleteRange DEFAULT_RANGES 1 = JS.Ok (Changed (delete 1%nat DEFAULT_RANGES)).
Proof.
  split.
  - apply (proj1 (delete_range sample_parseFloat sample_toString
                    (take 2 DEFAULT_RANGES) 0)). simpl. lia.
  - apply (proj1 (proj2 (delete_range sample_parseFloat sample_toString
                           DEFAULT_RANGES 1))). simpl. lia.
Defined.

(** What [handleAddRange] appends: the new range starts at the last [max]
    only when that value is truthy. *)
Lemma add_range_spec (toString : number -> string) (ranges : list Range.t) :
  let lastMax := JS.num_or (Range.max <$> last ranges) (Num 100) in
  handleAddRange toString ranges
  = JS.Ok (Changed (ranges ++
      [Range.mk lastMax (JS.add lastMax (Num 25)) "#ff6600"
         (toString lastMax +:+ " – " +:+ toString (JS.add lastMax (Num 25)) +:+ "%")]))
  /\ (ranges = [] -> lastMax = Num 100)
  /\ (forall l, last ranges = Some l -> JS.truthy (Range.max l) = true ->
        lastMax = Range.max l).
Proof.
  split; [reflexivity|]. split.
  - intros ->. reflexivity.
  - intros l Hl Ht. rewrite Hl. simpl. rewrite Ht. reflexivity.
Qed.

(** C9.  When the last range ends at [0] the appended range does not start
    there: it starts at [100], the value meant for an empty table. *)
Theorem add_range_after_zero_max :
  handleAddRange sample_toString
    [Range.mk (Num 0) (Num 3) "#38a800" "0 – 3%";
     Range.mk (Num 3) (Num 0) "#267300" "3 – 0%"]
  = JS.Ok (Changed
      [Range.mk (Num 0) (Num 3) "#38a800" "0 – 3%";
       Range.mk (Num 3) (Num 0) "#267300" "3 – 0%";
       Range.mk (Num 100) (Num 125) "#ff6600" "100 – 125%"]).
Proof. vm_compute. reflexivity. Qed.

(** The table of the previous lemma arises from the defaults: clearing the
    [max] field of a row stores [0], and the next added range starts
    at [100]. *)
Lemma add_range_after_cleared_max :
  exists t1 t2 r,
    handleRangeMaxChange sample_parseFloat sample_toString DEFAULT_RANGES 6 ""
    = JS.Ok (Changed t1)
    /\ handleAddRange sample_toString t1 = JS.Ok (Changed t2)
    /\ last t1 = Some (Range.mk (Num 75) (Num 0) "#ff0000" "> 75%")
    /\ last t2 = Some r /\ Range.min r = Num 100.
Proof.
  do 3 eexists. split; [reflexivity|]. split; [reflexivity|].
  split; [reflexivity|]. split; reflexivity.
Qed.

(** C10.  Editing a bound of an existing entry stores [parseFloat(v) || 0]:
    never [NaN], and [0] whenever the text does not parse.  What is stored
    is the parsed number itself when that is not zero, also an infinity,
    and [0] when it is zero.  The entry gets the new bound and the label
    derived from its bounds, keeps its colour and its other bound, and no
    other entry changes. *)
Theorem edit_bound (parseFloat : string -> number) (toString : number -> string)
    (ranges : list Range.t) (idx : nat) (r : Range.t) (val : string) :
  ranges !! idx = Some r ->
  let num := JS.num_or (Some (parseFloat val)) (Num 0) in
  num <> NaN
  /\ (parseFloat val = NaN -> num = Num 0)
  /\ (forall q, parseFloat val = Num q -> ~ (q == 0)%Q -> num = Num q)
  /\ (forall q, parseFloat val = Num q -> (q == 0)%Q -> num = Num 0)
  /\ (parseFloat val = PInf \/ parseFloat val = NInf -> num = parseFloat val)
  /\ (exists updated,
        handleRangeMinChange parseFloat toString ranges idx val = JS.Ok (Changed updated)
        /\ length updated = length ranges
        /\ updated !! idx
           = Some (Range.mk num (Range.max r) (Range.color r)
                     (if JS.ge num (Num 75) then "> " +:+ toString num +:+ "%"
                      else toString num +:+ " – " +:+ toString (Range.max r) +:+ "%"))
        /\ (forall j, j <> idx -> updated !! j = ranges !! j))
  /\ (exists updated,
        handleRangeMaxChange parseFloat toString ranges idx val = JS.Ok (Changed updated)
        /\ length updated = length ranges
        /\ updated !! idx
           = Some (Range.mk (Range.min r) num (Range.color r)
                     (if JS.ge (Range.min r) (Num 75)
                      then "> " +:+ toString (Range.min r) +:+ "%"
                      else toString (Range.min r) +:+ " – " +:+ toString num +:+ "%"))
        /\ (forall j, j <> idx -> updated !! j = ranges !! j)).
Proof.
  intros Hr num.
  assert (Hidx : (idx < length ranges)%nat) by (eapply lookup_lt_Some; exact Hr).
  split; [|split; [|split; [|split; [|split; [|split]]]]].
  - subst num. unfold JS.num_or.
    destruct (parseFloat val); simpl; try discriminate.
    destruct (negb (Qeq_bool q 0)); discriminate.
  - intros Hnan. subst num. rewrite Hnan. reflexivity.
  - intros q Hq Hnz. subst num. rewrite Hq. unfold JS.num_or, JS.truthy.
    destruct (Qeq_bool q 0) eqn:E; [|reflexivity].
    apply Qeq_bool_iff in E. contradiction.
  - intros q Hq Hz. subst num. rewrite Hq. unfold JS.num_or, JS.truthy.
    apply Qeq_bool_iff in Hz. rewrite Hz. reflexivity.
  - intros [H|H]; subst num; rewrite H; reflexivity.
  - unfold handleRangeMinChange. fold num. rewrite Hr.
    eexists. split; [reflexivity|]. split; [apply length_insert|]. split.
    + apply list_lookup_insert_eq. exact Hidx.
    + intros j Hj. apply list_lookup_insert_ne. congruence.
  - unfold handleRangeMaxChange. fold num. rewrite Hr.
    eexists. split; [reflexivity|]. split; [apply length_insert|]. split.
    + apply list_lookup_insert_eq. exact Hidx.
    + intros j Hj. apply list_lookup_insert_ne. congruence.
Qed.

Lemma edit_bound_witness :
  (exists updated,
     handleRangeMinChange sample_parseFloat sample_toString DEFAULT_RANGES 1 "abc"
     = JS.Ok (Changed updated)
     /\ updated !! 1%nat = Some (Range.mk (Num 0) (Num 7) "#267300" "0 – 7%"))
  /\ (exists updated,
        handleRangeMinChange sample_parseFloat sample_toString DEFAULT_RANGES 1 "5"
        = JS.Ok (Changed updated)
        /\ updated !! 1%nat = Some (Range.mk (Num 5) (Num 7) "#267300" "5 – 7%"))
  /\ JS.num_or (Some (sample_parseFloat "5")) (Num 0) = Num 5.
Proof.
  split; [|split].
  - destruct (edit_bound sample_parseFloat sample_toString DEFAULT_RANGES 1
                (Range.mk (Num 3) (Num 7) "#267300" "3 – 7%") "abc")
      as (_ & _ & _ & _ & _ & (updated & Hrun & _ & Hget & _) & _).
    + reflexivity.
    + exists updated. split; [exact Hrun | exact Hget].
  - destruct (edit_bound sample_parseFloat sample_toString DEFAULT_RANGES 1
                (Range.mk (Num 3) (Num 7) "#267300" "3 – 7%") "5")
      as (_ & _ & _ & _ & _ & (updated & Hrun & _ & Hget & _) & _).
    + reflexivity.
    + exists updated. split; [exact Hrun | exact Hget].
  - destruct (edit_bound sample_parseFloat sample_toString DEFAULT_RANGES 1
                (Range.mk (Num 3) (Num 7) "#267300" "3 – 7%") "5")
      as (_ & _ & Hnum & _).
    + reflexivity.
    + apply (Hnum 5%Q); [reflexivity | discriminate].
Defined.

(** Past the end of the table the edit handlers do not edit an entry:
    reading a bound of the missing entry throws, or the array grows. *)
Lemma edit_past_end :
  handleRangeMaxChange sample_parseFloat sample_toString DEFAULT_RANGES 9 "10"
  = JS.Throw "TypeError"
  /\ handleRangeMinChange sample_parseFloat sample_toString DEFAULT_RANGES 9 "10"
     = JS.Throw "TypeError"
  /\ handleRangeMinChange sample_parseFloat sample_toString DEFAULT_RANGES 9 "80"
     = JS.Ok (Grown DEFAULT_RANGES 2 (Some (Num 80)) None (Some "> 80%")).
Proof. repeat split. Qed.

(* ===================================================================== *)
(** ** Further properties: SlopeClassifier *)
(* ===================================================================== *)

Lemma ge_le_trans (v a b : number) :
  JS.ge v a = true -> JS.le b a = true -> JS.ge v b = true.
Proof.
  unfold JS.le, JS.ge.
  destruct v as [| | |v], a as [| | |a], b as [| | |b]; simpl; try congruence.
  destruct (Qcompare_spec v a) as [H|H|H]; try congruence; intros _;
    destruct (Qcompare_spec b a) as [H1|H1|H1]; try congruence; intros _;
    destruct (Qcompare_spec v b) as [H2|H2|H2]; try reflexivity; exfalso; lra.
Qed.

Lemma not_lt_ge (v a x y : number) :
  JS.lt v a = false -> JS.ge v x = true -> JS.le y a = true -> JS.ge v a = true.
Proof.
  unfold JS.lt, JS.le, JS.ge.
  destruct v as [| | |v], a as [| | |a]; simpl; try congruence;
    try (destruct x; simpl; congruence);
    try (destruct y; simpl; congruence).
  destruct (v ?= a)%Q; congruence.
Qed.

Lemma walk_unmatched (val : number) (ranges : list Range.t) (fill : string) :
  Forall (fun r => within val r = false) ranges -> walk val ranges fill = fill.
Proof.
  induction 1 as [|r rest Hr _ IH]; [reflexivity|].
  simpl. unfold within in Hr. rewrite Hr. exact IH.
Qed.

Lemma walk_cases (val : number) (ranges : list Range.t) (fill : string) :
  walk val ranges fill = fill
  \/ exists r, r ∈ ranges /\ within val r = true /\ walk val ranges fill = Range.color r.
Proof.
  induction ranges as [|r0 rest IH]; [left; reflexivity|].
  simpl. destruct (JS.ge val (Range.min r0) && JS.lt val (Range.max r0)) eqn:E.
  - right. exists r0. split; [left|]. split; [exact E | reflexivity].
  - destruct IH as [IH|(r & Hr & Hw & Hc)]; [left; exact IH|].
    right. exists r. split; [right; exact Hr|]. split; assumption.
Qed.

Lemma last_elem_of {A} (l : list A) (x : A) : last l = Some x -> x ∈ l.
Proof.
  rewrite last_lookup. apply list_elem_of_lookup_2.
Qed.

(** X1.  A value below the [min] of every range is coloured with the default
    gray, whatever the table holds; so is [NaN], which no comparison
    admits. *)
Theorem classify_unmatched_gray :
  (forall (v : number) (ranges : list Range.t),
      Forall (fun r => JS.ge v (Range.min r) = false) ranges ->
      classify v ranges = "#888888")
  /\ (forall ranges : list Range.t, classify NaN ranges = "#888888").
Proof.
  assert (Below : forall (v : number) (ranges : list Range.t),
      Forall (fun r => JS.ge v (Range.min r) = false) ranges ->
      classify v ranges = "#888888").
  { intros v ranges Hall. unfold classify.
    assert (Hlast : above_last v ranges = false).
    { unfold above_last. destruct (last ranges) as [l|] eqn:El; [|reflexivity].
      rewrite Forall_forall in Hall. apply Hall. apply last_elem_of. exact El. }
    rewrite Hlast. apply walk_unmatched.
    eapply Forall_impl; [exact Hall|]. intros r Hr. unfold within. rewrite Hr.
    reflexivity. }
  split; [exact Below|].
  intros ranges. apply Below. apply Forall_forall. intros r _. reflexivity.
Qed.

Lemma classify_unmatched_gray_witness :
  classify (Num (- 5)) DEFAULT_RANGES = "#888888".
Proof.
  apply (proj1 classify_unmatched_gray). repeat constructor.
Defined.

(** X2.  The classifier never invents a colour: the result is the default gray
    or the colour of an entry of the table. *)
Theorem classify_in_palette (v : number) (ranges : list Range.t) :
  classify v ranges = "#888888"
  \/ exists r, r ∈ ranges /\ classify v ranges = Range.color r.
Proof.
  unfold classify.
  destruct (walk_cases v ranges "#888888") as [Hw|(r & Hr & _ & Hc)].
  - destruct (above_last v ranges); [|left; exact Hw].
    destruct (last ranges) as [l|] eqn:El; [|left; exact Hw]. simpl.
    destruct (Range.color l) eqn:Ec; simpl; [left; exact Hw|].
    right. exists l. split; [apply last_elem_of; exact El|]. symmetry. exact Ec.
  - destruct (above_last v ranges); [|right; exists r; split; assumption].
    destruct (last ranges) as [l|] eqn:El; [|right; exists r; split; assumption].
    simpl. destruct (Range.color l) eqn:Ec; simpl.
    + right. exists r. split; assumption.
    + right. exists l. split; [apply last_elem_of; exact El|]. symmetry. exact Ec.
Qed.

Lemma contiguous_found (v : number) (ranges : list Range.t) (r0 : Range.t) :
  contiguous (r0 :: ranges) = true ->
  JS.ge v (Range.min r0) = true ->
  above_last v (r0 :: ranges) = true
  \/ exists r, r ∈ r0 :: ranges /\ within v r = true
       /\ walk v (r0 :: ranges) "#888888" = Range.color r.
Proof.
  revert r0. induction ranges as [|r1 rest IH]; intros r0 Hc Hge.
  - left. unfold above_last. simpl. exact Hge.
  - destruct (JS.lt v (Range.max r0)) eqn:Hlt.
    + right. exists r0. split; [left|]. unfold within. rewrite Hge, Hlt.
      split; [reflexivity|]. simpl. rewrite Hge, Hlt. reflexivity.
    + change (contiguous (r0 :: r1 :: rest))
        with (JS.le (Range.min r1) (Range.max r0) && contiguous (r1 :: rest)) in Hc.
      apply andb_prop in Hc as [Hle Hc].
      assert (Hge1 : JS.ge v (Range.min r1) = true).
      { apply (ge_le_trans v (Range.max r0)); [|exact Hle].
        exact (not_lt_ge v (Range.max r0) _ _ Hlt Hge Hle). }
      destruct (IH r1 Hc Hge1) as [Hl|(r & Hr & Hw & Hwalk)].
      * left. exact Hl.
      * right. exists r. split; [right; exact Hr|]. split; [exact Hw|].
        simpl. rewrite Hge, Hlt. simpl. exact Hwalk.
Qed.

(** X3.  A table without gaps classifies every value from its first [min]
    upwards into one of its ranges, one that starts at or below the value:
    nothing at or above the first [min] falls through to gray by
    accident. *)
Theorem classify_contiguous_total (v : number) (ranges : list Range.t)
    (r0 l : Range.t) :
  contiguous ranges = true ->
  head ranges = Some r0 -> last ranges = Some l ->
  Range.color l <> "" ->
  JS.ge v (Range.min r0) = true ->
  exists r, r ∈ ranges /\ JS.ge v (Range.min r) = true
            /\ classify v ranges = Range.color r.
Proof.
  intros Hc Hhead Hlast Hcol Hge.
  destruct ranges as [|r0' rest]; [discriminate|]. injection Hhead as ->.
  destruct (above_last v (r0 :: rest)) eqn:Ha.
  - exists l. split; [apply last_elem_of; exact Hlast|]. split.
    + unfold above_last in Ha. rewrite Hlast in Ha. exact Ha.
    + unfold classify. rewrite Ha, Hlast. simpl.
      destruct (Range.color l); [contradiction | reflexivity].
  - destruct (contiguous_found v rest r0 Hc Hge) as [Hl|(r & Hr & Hw & Hwalk)];
      [congruence|].
    exists r. split; [exact Hr|]. split.
    + unfold within in Hw. apply andb_prop in Hw as [Hw _]. exact Hw.
    + unfold classify. rewrite Ha. exact Hwalk.
Qed.

Lemma classify_contiguous_total_witness :
  exists r, r ∈ DEFAULT_RANGES /\ JS.ge (Num 1000) (Range.min r) = true
            /\ classify (Num 1000) DEFAULT_RANGES = Range.color r.
Proof.
  apply (classify_contiguous_total (Num 1000) DEFAULT_RANGES
           (Range.mk (Num 0) (Num 3) "#38a800" "0 – 3%")
           (Range.mk (Num 75) (Num 999) "#ff0000" "> 75%"));
    first [reflexivity | discriminate].
Defined.

(* ===================================================================== *)
(** ** Further properties: GridTessellator *)
(* ===================================================================== *)

(** One step of the grid stays between the two bounds. *)
Lemma step_bounds (lo hi : Q) (n c : nat) :
  (lo <= hi)%Q -> (c < n)%nat ->
  (lo <= lo + inject_Z (Z.of_nat c) * ((hi - lo) / inject_Z (Z.of_nat n)))%Q
  /\ (lo + inject_Z (Z.of_nat c) * ((hi - lo) / inject_Z (Z.of_nat n))
      + (hi - lo) / inject_Z (Z.of_nat n) <= hi)%Q.
Proof.
  intros Hle Hc.
  assert (Hn : (0 < inject_Z (Z.of_nat n))%Q).
  { change 0%Q with (inject_Z 0). rewrite <- Zlt_Qlt. lia. }
  assert (Hc0 : (0 <= inject_Z (Z.of_nat c))%Q).
  { change 0%Q with (inject_Z 0). rewrite <- Zle_Qle. lia. }
  assert (Hc1 : (inject_Z (Z.of_nat c) + 1 <= inject_Z (Z.of_nat n))%Q).
  { change 1%Q with (inject_Z 1). rewrite <- inject_Z_plus, <- Zle_Qle. lia. }
  set (d := ((hi - lo) / inject_Z (Z.of_nat n))%Q).
  assert (Hd : (d * inject_Z (Z.of_nat n) == hi - lo)%Q).
  { subst d. field. intros H. rewrite H in Hn. exact (Qlt_irrefl _ Hn). }
  assert (Hd0 : (0 <= d)%Q).
  { subst d. apply Qle_shift_div_l; [exact Hn|]. lra. }
  generalize dependent (inject_Z (Z.of_nat n)).
  generalize dependent (inject_Z (Z.of_nat c)).
  intros qc Hc0 qn Hn Hc1 d Hd Hd0. clearbody d.
  split; nra.
Qed.

(** The two grid lines of column [c] along one axis of an ordered bbox:
    both are finite and between the bounds, up to [2^-38]. *)
Lemma axis_inside (lo hi : Q) (n c : nat) :
  (lo <= hi)%Q -> (Qabs lo <= 512)%Q -> (Qabs hi <= 512)%Q ->
  (Z.of_nat n < 2 ^ 32)%Z -> (c < n)%nat ->
  exists d x0 x1 : Q,
    JS.div (JS.sub (Num hi) (Num lo)) (JS.of_nat n) = Num d
    /\ JS.add (Num lo) (JS.mul (JS.of_nat c) (Num d)) = Num x0
    /\ JS.add (Num x0) (Num d) = Num x1
    /\ (lo - JS.pow2 (-38) <= x0 <= hi + JS.pow2 (-38))%Q
    /\ (lo - JS.pow2 (-38) <= x1 <= hi + JS.pow2 (-38))%Q.
Proof.
  intros Hle Hlo Hhi Hn32 Hc.
  assert (Hpos : (0 < n)%nat) by lia.
  destruct (axis_points lo hi n c Hlo Hhi Hpos Hn32 Hc)
    as (d & x0 & x1 & Hd & Hx0 & Hx1 & He0 & He1).
  destruct (step_bounds lo hi n c Hle Hc) as [Hs0 Hs1].
  assert (Hw : (0 <= (hi - lo) / inject_Z (Z.of_nat n))%Q).
  { apply Qle_shift_div_l; [|lra].
    change 0%Q with (inject_Z 0). rewrite <- Zlt_Qlt. lia. }
  exists d, x0, x1. split; [exact Hd|]. split; [exact Hx0|]. split; [exact Hx1|].
  apply Qabs_bound in He0, He1.
  assert (E : ((inject_Z (Z.of_nat c) + 1) * ((hi - lo) / inject_Z (Z.of_nat n))
               == inject_Z (Z.of_nat c) * ((hi - lo) / inject_Z (Z.of_nat n))
                  + (hi - lo) / inject_Z (Z.of_nat n))%Q) by ring.
  rewrite E in He1.
  generalize dependent (inject_Z (Z.of_nat c) * ((hi - lo) / inject_Z (Z.of_nat n)))%Q.
  generalize dependent ((hi - lo) / inject_Z (Z.of_nat n))%Q.
  intros W HW cW. intros. lra.
Qed.

(** The cell of a feature at position [k] of a square grid's output. *)
Lemma square_position (n k : nat) :
  (k < n * n)%nat ->
  (0 < n)%nat /\ (k / n < n)%nat /\ (k mod n < n)%nat
  /\ (k / n * n + k mod n)%nat = k.
Proof.
  intros Hk. assert (Hpos : (0 < n)%nat) by nia.
  split; [exact Hpos|]. split; [|split].
  - apply Nat.Div0.div_lt_upper_bound; lia.
  - apply Nat.mod_upper_bound; lia.
  - rewrite (Nat.div_mod_eq k n) at 3. lia.
Qed.

(** X4.  Every polygon of a square grid lies inside the bbox, up to the
    rounding of the arithmetic: for an ordered bbox of coordinates of
    magnitude at most 512 and fewer than 2^32 rows, each vertex of each
    ring has finite coordinates no further than [2^-38] outside the
    bounds.  (Exactly inside it is not: see [binary64_examples].) *)
Theorem cells_inside_bbox (Number : string -> number) (n : nat)
    (slopeGrid : list row) (bboxStr : string) (grid_size : option number)
    (slopeRanges : option (list Range.t)) (minX minY maxX maxY : Q) :
  square n slopeGrid ->
  parse_bbox Number bboxStr = [Num minX; Num minY; Num maxX; Num maxY] ->
  grid_size = None \/ grid_size = Some (JS.of_nat n) ->
  (minX <= maxX)%Q -> (minY <= maxY)%Q ->
  (Qabs minX <= 512)%Q -> (Qabs maxX <= 512)%Q ->
  (Qabs minY <= 512)%Q -> (Qabs maxY <= 512)%Q ->
  (Z.of_nat n < 2 ^ 32)%Z ->
  exists fs,
    tessellate Number slopeGrid bboxStr grid_size slopeRanges = JS.Ok fs
    /\ Forall (fun f =>
         Forall (inside (minX - JS.pow2 (-38)) (minY - JS.pow2 (-38))
                        (maxX + JS.pow2 (-38)) (maxY + JS.pow2 (-38))) (ring f)) fs.
Proof.
  intros Hsq Hbox Hsize HX HY HminX HmaxX HminY HmaxY Hn32.
  destruct (square_cells Number n slopeGrid bboxStr grid_size slopeRanges
              (Num minX) (Num minY) (Num maxX) (Num maxY) Hsq Hbox Hsize)
    as (fs & Hrun & Hlen & Hcell).
  exists fs. split; [exact Hrun|].
  apply Forall_lookup. intros k f Hk.
  assert (Hkn : (k < n * n)%nat) by (rewrite <- Hlen; eapply lookup_lt_Some; exact Hk).
  destruct (square_position n k Hkn) as (Hpos & Hr & Hc & Hpos_k).
  destruct (Hcell (k / n)%nat (k mod n)%nat Hr Hc) as (v & _ & Hf).
  rewrite Hpos_k, Hk in Hf.
  destruct (axis_inside minX maxX n (k mod n) HX HminX HmaxX Hn32 Hc)
    as (dx & x0 & x1 & Hdx & Hx0 & Hx1 & [Hx0l Hx0h] & [Hx1l Hx1h]).
  destruct (axis_inside minY maxY n (k / n) HY HminY HmaxY Hn32 Hr)
    as (dy & y0 & y1 & Hdy & Hy0 & Hy1 & [Hy0l Hy0h] & [Hy1l Hy1h]).
  rewrite Hdx, Hdy in Hf. unfold cell in Hf. rewrite Hx0, Hy0, Hx1, Hy1 in Hf.
  injection Hf as ->.
  unfold ring. cbn [Feature.geom Feature.coordinates lookup list_lookup default].
  repeat constructor; eexists; eexists; (split; [reflexivity|]);
    repeat split; assumption.
Qed.

Lemma cells_inside_bbox_witness :
  exists fs,
    tessellate sample_Number [Cells [Num 1; Num 2]; Cells [Num 30; Num 80]]
      "0,0,2,2" None (Some DEFAULT_RANGES) = JS.Ok fs
    /\ Forall (fun f =>
         Forall (inside (0 - JS.pow2 (-38)) (0 - JS.pow2 (-38))
                        (2 + JS.pow2 (-38)) (2 + JS.pow2 (-38))) (ring f)) fs.
Proof.
  apply (cells_inside_bbox sample_Number 2
           [Cells [Num 1; Num 2]; Cells [Num 30; Num 80]] "0,0,2,2" None
           (Some DEFAULT_RANGES) 0 0 2 2).
  - split; [reflexivity|]. repeat constructor; discriminate.
  - reflexivity.
  - left. reflexivity.
  - discriminate.
  - discriminate.
  - discriminate.
  - discriminate.
  - discriminate.
  - discriminate.
  - reflexivity.
Defined.

Lemma inject_succ (c : nat) :
  (inject_Z (Z.of_nat (S c)) == inject_Z (Z.of_nat c) + 1)%Q.
Proof.
  rewrite Nat2Z.inj_succ. unfold Z.succ. rewrite inject_Z_plus. reflexivity.
Qed.

(** Along one axis the far line of column [c] and the near line of column
    [c + 1] are computed differently, and agree to within [2^-37]. *)
Lemma axis_seam (lo hi : Q) (n c : nat) :
  (Qabs lo <= 512)%Q -> (Qabs hi <= 512)%Q ->
  (Z.of_nat n < 2 ^ 32)%Z -> (S c < n)%nat ->
  exists d x0 x1 x0' x1' : Q,
    JS.div (JS.sub (Num hi) (Num lo)) (JS.of_nat n) = Num d
    /\ JS.add (Num lo) (JS.mul (JS.of_nat c) (Num d)) = Num x0
    /\ JS.add (Num x0) (Num d) = Num x1
    /\ JS.add (Num lo) (JS.mul (JS.of_nat (S c)) (Num d)) = Num x0'
    /\ JS.add (Num x0') (Num d) = Num x1'
    /\ (Qabs (x1 - x0') <= JS.pow2 (-37))%Q.
Proof.
  intros Hlo Hhi Hn32 Hc.
  assert (Hpos : (0 < n)%nat) by lia.
  assert (Hc' : (c < n)%nat) by lia.
  destruct (axis_points lo hi n c Hlo Hhi Hpos Hn32 Hc')
    as (d & x0 & x1 & Hd & Hx0 & Hx1 & _ & He1).
  destruct (axis_points lo hi n (S c) Hlo Hhi Hpos Hn32 Hc)
    as (d' & x0' & x1' & Hd' & Hx0' & Hx1' & He0' & _).
  rewrite Hd in Hd'. injection Hd' as <-.
  exists d, x0, x1, x0', x1'.
  split; [exact Hd|]. split; [exact Hx0|]. split; [exact Hx1|].
  split; [exact Hx0'|]. split; [exact Hx1'|].
  rewrite inject_succ in He0'.
  apply Qabs_bound in He1, He0'. apply Qabs_bound.
  generalize dependent ((inject_Z (Z.of_nat c) + 1) * ((hi - lo) / inject_Z (Z.of_nat n)))%Q.
  intros t. intros. revert He1 He0'. pow2_consts. intros. split; lra.
Qed.

(** X5.  The cells of a square grid tile up to the rounding of the
    arithmetic: for a bbox of coordinates of magnitude at most 512 and
    fewer than 2^32 rows, a cell's right edge and the left edge of the
    next cell of its row are at most [2^-37] apart, and so are its top
    edge and the bottom edge of the cell above it; along the shared edge
    the other coordinate is the same number.  (The two edges need not
    coincide: see [binary64_examples].) *)
Theorem cells_share_edges (Number : string -> number) (n : nat)
    (slopeGrid : list row) (bboxStr : string) (grid_size : option number)
    (slopeRanges : option (list Range.t)) (minX minY maxX maxY : Q) :
  square n slopeGrid ->
  parse_bbox Number bboxStr = [Num minX; Num minY; Num maxX; Num maxY] ->
  grid_size = None \/ grid_size = Some (JS.of_nat n) ->
  (Qabs minX <= 512)%Q -> (Qabs maxX <= 512)%Q ->
  (Qabs minY <= 512)%Q -> (Qabs maxY <= 512)%Q ->
  (Z.of_nat n < 2 ^ 32)%Z ->
  exists fs,
    tessellate Number slopeGrid bboxStr grid_size slopeRanges = JS.Ok fs
    /\ (forall r c, (r < n)%nat -> (S c < n)%nat ->
          exists f g, fs !! (r * n + c)%nat = Some f
            /\ fs !! (r * n + S c)%nat = Some g
            /\ vertex_near (JS.pow2 (-37)) 0 f 1 g 0
            /\ vertex_near (JS.pow2 (-37)) 0 f 2 g 3)
    /\ (forall r c, (S r < n)%nat -> (c < n)%nat ->
          exists f g, fs !! (r * n + c)%nat = Some f
            /\ fs !! (S r * n + c)%nat = Some g
            /\ vertex_near 0 (JS.pow2 (-37)) f 3 g 0
            /\ vertex_near 0 (JS.pow2 (-37)) f 2 g 1).
Proof.
  intros Hsq Hbox Hsize HminX HmaxX HminY HmaxY Hn32.
  destruct (square_cells Number n slopeGrid bboxStr grid_size slopeRanges
              (Num minX) (Num minY) (Num maxX) (Num maxY) Hsq Hbox Hsize)
    as (fs & Hrun & Hlen & Hcell).
  assert (Hself : forall y : Q, (Qabs (y - y) <= 0)%Q).
  { intros y. assert (E : (y - y == 0)%Q) by ring. rewrite E. discriminate. }
  exists fs. split; [exact Hrun|]. split.
  - intros r c Hr Hc.
    destruct (Hcell r c) as (v & _ & Hf); [lia | lia |].
    destruct (Hcell r (S c)) as (w & _ & Hg); [lia | lia |].
    destruct (axis_seam minX maxX n c HminX HmaxX Hn32 Hc)
      as (dx & x0 & x1 & x0' & x1' & Hdx & Hx0 & Hx1 & Hx0' & Hx1' & Hseam).
    destruct (axis_points minY maxY n r HminY HmaxY ltac:(lia) Hn32 Hr)
      as (dy & y0 & y1 & Hdy & Hy0 & Hy1 & _).
    rewrite Hdx, Hdy in Hf, Hg. unfold cell in Hf, Hg.
    rewrite Hx0, Hx1, Hy0, Hy1 in Hf. rewrite Hx0', Hx1', Hy0, Hy1 in Hg.
    eexists. eexists. split; [exact Hf|]. split; [exact Hg|].
    split.
    + exists x1, y0, x0', y0. repeat split; [exact Hseam | apply Hself].
    + exists x1, y1, x0', y1. repeat split; [exact Hseam | apply Hself].
  - intros r c Hr Hc.
    destruct (Hcell r c) as (v & _ & Hf); [lia | lia |].
    destruct (Hcell (S r) c) as (w & _ & Hg); [lia | lia |].
    destruct (axis_seam minY maxY n r HminY HmaxY Hn32 Hr)
      as (dy & y0 & y1 & y0' & y1' & Hdy & Hy0 & Hy1 & Hy0' & Hy1' & Hseam).
    destruct (axis_points minX maxX n c HminX HmaxX ltac:(lia) Hn32 Hc)
      as (dx & x0 & x1 & Hdx & Hx0 & Hx1 & _).
    rewrite Hdx, Hdy in Hf, Hg. unfold cell in Hf, Hg.
    rewrite Hx0, Hx1, Hy0, Hy1 in Hf. rewrite Hx0, Hx1, Hy0', Hy1' in Hg.
    eexists. eexists. split; [exact Hf|]. split; [exact Hg|].
    split.
    + exists x0, y1, x0, y0'. repeat split; [apply Hself | exact Hseam].
    + exists x1, y1, x1, y0'. repeat split; [apply Hself | exact Hseam].
Qed.

Lemma cells_share_edges_witness :
  exists fs,
    tessellate sample_Number [Cells [Num 1; Num 2]; Cells [Num 30; Num 80]]
      "0,0,2,2" None (Some DEFAULT_RANGES) = JS.Ok fs
    /\ exists f g, fs !! 0%nat = Some f /\ fs !! 1%nat = Some g
                   /\ vertex_near (JS.pow2 (-37)) 0 f 1 g 0.
Proof.
  destruct (cells_share_edges sample_Number 2
              [Cells [Num 1; Num 2]; Cells [Num 30; Num 80]] "0,0,2,2" None
              (Some DEFAULT_RANGES) 0 0 2 2) as (fs & Hrun & Hrow & _).
  - split; [reflexivity|]. repeat constructor; discriminate.
  - reflexivity.
  - left. reflexivity.
  - discriminate.
  - discriminate.
  - discriminate.
  - discriminate.
  - reflexivity.
  - exists fs. split; [exact Hrun|].
    destruct (Hrow 0%nat 0%nat) as (f & g & Hf & Hg & Hm & _); [lia | lia |].
    exists f, g. split; [exact Hf|]. split; [exact Hg | exact Hm].
Defined.





Lemma split_comma_nonempty (s : string) : split_comma s <> [].
Proof.
  destruct s as [|c rest]; [discriminate|]. simpl.
  destruct (Ascii.eqb c ","); [discriminate|].
  destruct (split_comma rest); discriminate.
Qed.

Lemma split_comma_free (s : string) :
  comma_free s = true -> split_comma s = [s].
Proof.
  induction s as [|c rest IH]; [reflexivity|]. simpl.
  intros H. apply andb_prop in H as [Hc Hrest].
  apply negb_true_iff in Hc. rewrite Hc, (IH Hrest). reflexivity.
Qed.

Lemma split_comma_field (s t : string) :
  comma_free s = true ->
  split_comma (s +:+ "," +:+ t) = s :: split_comma t.
Proof.
  induction s as [|c rest IH]; [reflexivity|]. simpl.
  intros H. apply andb_prop in H as [Hc Hrest].
  apply negb_true_iff in Hc. rewrite Hc. simpl in IH. rewrite (IH Hrest).
  reflexivity.
Qed.

(** X7.  The bbox string a gesture commits reads back as the bbox: when the
    host prints the four bounds without a comma, [split(',')] finds exactly
    the four fields, and [Number] turns them into the four bounds again
    wherever it inverts the print. *)
Theorem committed_bbox_parses (Number : string -> number)
    (toString : number -> string) (unproject : number * number -> LngLat)
    (e : MouseEvent) (s : LngLat) :
  let p := unproject (offsetX e, offsetY e) in
  let bounds := [JS.min (lng s) (lng p); JS.min (lat s) (lat p);
                 JS.max (lng s) (lng p); JS.max (lat s) (lat p)] in
  Forall (fun x => comma_free (toString x) = true) bounds ->
  Forall (fun x => Number (toString x) = x) bounds ->
  JS.gt (JS.abs (JS.sub (lng p) (lng s))) (JS.round64 (1 # 1000)) = true ->
  JS.gt (JS.abs (JS.sub (lat p) (lat s))) (JS.round64 (1 # 1000)) = true ->
  exists bboxStr,
    snd (mouseup toString unproject true e (Some s)) = Some bboxStr
    /\ length (split_comma bboxStr) = 4%nat
    /\ parse_bbox Number bboxStr = bounds.
Proof.
  intros p bounds Hfree Hinv Hw Ht.
  eexists. split.
  - unfold mouseup. fold p. rewrite !span_abs, Hw, Ht. reflexivity.
  - inversion Hfree as [|x1 l1 F1 Hfree1]; subst.
    inversion Hfree1 as [|x2 l2 F2 Hfree2]; subst.
    inversion Hfree2 as [|x3 l3 F3 Hfree3]; subst.
    inversion Hfree3 as [|x4 l4 F4 _]; subst.
    inversion Hinv as [|y1 k1 N1 Hinv1]; subst.
    inversion Hinv1 as [|y2 k2 N2 Hinv2]; subst.
    inversion Hinv2 as [|y3 k3 N3 Hinv3]; subst.
    inversion Hinv3 as [|y4 k4 N4 _]; subst.
    unfold parse_bbox.
    rewrite (split_comma_field _ _ F1), (split_comma_field _ _ F2),
      (split_comma_field _ _ F3), (split_comma_free _ F4).
    split; [reflexivity|]. simpl. rewrite N1, N2, N3, N4. reflexivity.
Qed.

Lemma committed_bbox_parses_witness :
  exists bboxStr,
    snd (mouseup sample_toString sample_unproject true
           (mkMouseEvent (Num (- 69)) (Num (- 26)))
           (Some (mkLngLat (Num (- 70)) (Num (- 27))))) = Some bboxStr
    /\ parse_bbox sample_Number bboxStr
       = [Num (- 70); Num (- 27); Num (- 69); Num (- 26)].
Proof.
  destruct (committed_bbox_parses sample_Number sample_toString sample_unproject
              (mkMouseEvent (Num (- 69)) (Num (- 26)))
              (mkLngLat (Num (- 70)) (Num (- 27))))
    as (b & Hb & _ & Hparse).
  - repeat constructor.
  - repeat constructor.
  - reflexivity.
  - reflexivity.
  - exists b. split; [exact Hb | exact Hparse].
Defined.

(* ===================================================================== *)
(** ** Further properties: OverlaySyncer *)
(* ===================================================================== *)

Lemma filter_Forall_true {A} (f : A -> bool) (l : list A) :
  Forall (fun x => f x = true) l -> List.filter f l = l.
Proof.
  induction 1 as [|x l Hx _ IH]; [reflexivity|]. simpl. rewrite Hx, IH. reflexivity.
Qed.

Lemma filter_filter_weaker {A} (p q : A -> bool) (l : list A) :
  (forall x, p x = true -> q x = true) ->
  List.filter p (List.filter q l) = List.filter p l.
Proof.
  intros Hpq. induction l as [|x l IH]; [reflexivity|]. simpl.
  destruct (q x) eqn:Hq; simpl.
  - rewrite IH. reflexivity.
  - destruct (p x) eqn:Hp; [|exact IH].
    rewrite (Hpq x Hp) in Hq. discriminate.
Qed.

(** The guard in front of [removeLayer] makes no difference. *)
Lemma removeLayer_guard (id : string) (m : MapGL.t) :
  (if MapGL.getLayer id m is Some _ then MapGL.removeLayer id m else m)
  = MapGL.removeLayer id m.
Proof.
  destruct (MapGL.getLayer id m) eqn:E; [reflexivity|].
  unfold MapGL.getLayer in E. destruct m as [srcs lays hs].
  unfold MapGL.removeLayer. simpl in *. f_equal. symmetry.
  apply filter_Forall_true. apply Forall_forall. intros l Hl.
  rewrite (find_none _ _ E l); [reflexivity|].
  apply list_elem_of_In. exact Hl.
Qed.

(** Creation needs only that the source and the two layer ids are free. *)
Lemma upsert_creates_on (fc : FeatureCollection) (m : MapGL.t) :
  MapGL.getSource "slope-cells" m = None ->
  Forall (fun l => Layer.id l <> "slope-cells"
                   /\ Layer.id l <> "slope-cells-outline") (MapGL.layers m) ->
  upsert_slope_cells fc m
  = JS.Ok (MapGL.mk
             (<["slope-cells" := GeoJSON fc]> (MapGL.sources m))
             ((MapGL.layers m ++ [slope_fill_layer]) ++ [slope_outline_layer])
             (MapGL.listeners m ++ slope_handlers)).
Proof.
  intros Hsrc Hlay. unfold upsert_slope_cells. rewrite Hsrc.
  unfold MapGL.getSource in Hsrc. unfold MapGL.addSource. rewrite Hsrc.
  cbn [mbind result_bind].
  unfold MapGL.addLayer at 2. cbn [MapGL.layers MapGL.sources MapGL.listeners].
  rewrite existsb_Forall_false.
  2:{ eapply Forall_impl; [exact Hlay|]. intros l (H1 & _).
      unfold MapGL.has_id. apply bool_decide_eq_false. exact H1. }
  change (Layer.source slope_fill_layer) with "slope-cells".
  rewrite lookup_insert_eq.
  unfold MapGL.addLayer. cbn [MapGL.layers MapGL.sources MapGL.listeners].
  rewrite existsb_app, existsb_Forall_false.
  2:{ eapply Forall_impl; [exact Hlay|]. intros l (_ & H2).
      unfold MapGL.has_id. apply bool_decide_eq_false. exact H2. }
  change (Layer.source slope_outline_layer) with "slope-cells".
  rewrite lookup_insert_eq.
  unfold MapGL.on, slope_handlers. cbn [MapGL.layers MapGL.sources MapGL.listeners].
  rewrite <- !app_assoc. reflexivity.
Qed.

Lemma no_overlay_ids (m : MapGL.t) :
  no_slope_overlay m ->
  Forall (fun l => Layer.id l <> "slope-cells"
                   /\ Layer.id l <> "slope-cells-outline") (MapGL.layers m).
Proof.
  intros (_ & Hlay & _). eapply Forall_impl; [exact Hlay|].
  intros l (H1 & H2 & _). split; assumption.
Qed.

(** What the clearing branch leaves of a freshly created overlay. *)
Lemma clear_created (fc : FeatureCollection) (m : MapGL.t) (hs : list Listener.t) :
  no_slope_overlay m ->
  clear_slope_cells
    (MapGL.mk (<["slope-cells" := GeoJSON fc]> (MapGL.sources m))
       ((MapGL.layers m ++ [slope_fill_layer]) ++ [slope_outline_layer]) hs)
  = MapGL.mk (MapGL.sources m) (MapGL.layers m) hs.
Proof.
  intros (Hsrc & Hlay & _). unfold clear_slope_cells.
  rewrite !removeLayer_guard.
  unfold MapGL.getSource, MapGL.removeLayer, MapGL.removeSource.
  cbn [MapGL.layers MapGL.sources MapGL.listeners].
  rewrite lookup_insert_eq.
  assert (Hkeep : List.filter (fun l => negb (MapGL.has_id "slope-cells-outline" l))
                    (List.filter (fun l => negb (MapGL.has_id "slope-cells" l))
                       ((MapGL.layers m ++ [slope_fill_layer]) ++ [slope_outline_layer]))
                  = MapGL.layers m).
  { rewrite !List.filter_app. simpl. rewrite !app_nil_r.
    rewrite !filter_Forall_true; [reflexivity| |].
    - eapply Forall_impl; [exact Hlay|]. intros l (H1 & _ & _).
      unfold MapGL.has_id. rewrite bool_decide_eq_false_2 by exact H1. reflexivity.
    - rewrite filter_Forall_true.
      + eapply Forall_impl; [exact Hlay|]. intros l (_ & H2 & _).
        unfold MapGL.has_id. rewrite bool_decide_eq_false_2 by exact H2. reflexivity.
      + eapply Forall_impl; [exact Hlay|]. intros l (H1 & _ & _).
        unfold MapGL.has_id. rewrite bool_decide_eq_false_2 by exact H1. reflexivity. }
  rewrite Hkeep.
  rewrite existsb_Forall_false.
  2:{ eapply Forall_impl; [exact Hlay|]. intros l (_ & _ & H3).
      unfold MapGL.uses. apply bool_decide_eq_false. exact H3. }
  rewrite delete_insert_id by exact Hsrc. reflexivity.
Qed.

(** X9.  Removing the slope data undoes the sources and the layers of the
    overlay but not its listeners: after an upsert on a map without the
    overlay, the clearing branch gives back the map's sources and layers
    exactly, and leaves the three listeners registered. *)
Theorem clear_keeps_listeners (fc : FeatureCollection) (m : MapGL.t) :
  no_slope_overlay m ->
  exists m1,
    upsert_slope_cells fc m = JS.Ok m1
    /\ clear_slope_cells m1
       = MapGL.mk (MapGL.sources m) (MapGL.layers m)
           (MapGL.listeners m ++ slope_handlers).
Proof.
  intros Hfresh. eexists. split.
  - apply upsert_creates_on; [apply Hfresh | apply no_overlay_ids; exact Hfresh].
  - apply clear_created. exact Hfresh.
Qed.

Lemma clear_keeps_listeners_witness :
  exists m1,
    upsert_slope_cells (mkFC "FeatureCollection" []) MapGL.initial = JS.Ok m1
    /\ clear_slope_cells m1
       = MapGL.mk (MapGL.sources MapGL.initial) (MapGL.layers MapGL.initial)
           slope_handlers.
Proof.
  apply (clear_keeps_listeners (mkFC "FeatureCollection" []) MapGL.initial).
  split; [reflexivity|]. split; repeat constructor; discriminate.
Defined.

(** C4.  Two upserts do not always leave one set of handlers.  On the map
    the component starts with, show the overlay ([fc0]), hide it, and then
    upsert [fc1] and [fc2]: the clearing branch removes the layers and the
    source but no listener, and the upsert that follows takes the creating
    branch and registers the three again.  The source is there once and
    holds [fc2], the two layers are there once, the second upsert changed
    nothing but the data, and every handler is registered twice. *)
Theorem upsert_twice_after_clear (fc0 fc1 fc2 : FeatureCollection) :
  exists m0 m1 m2,
    upsert_slope_cells fc0 MapGL.initial = JS.Ok m0
    /\ upsert_slope_cells fc1 (clear_slope_cells m0) = JS.Ok m1
    /\ upsert_slope_cells fc2 m1 = JS.Ok m2
    /\ MapGL.getSource "slope-cells" m2 = Some (GeoJSON fc2)
    /\ slope_layers m2 = [slope_fill_layer; slope_outline_layer]
    /\ m2 = with_data fc2 m1
    /\ slope_listeners m2 = slope_handlers ++ slope_handlers
    /\ length (slope_listeners m2) = 6%nat.
Proof.
  assert (Hfresh : no_slope_overlay MapGL.initial).
  { split; [reflexivity|]. split; repeat constructor; discriminate. }
  pose proof Hfresh as (Hsrc & Hlay & Hlis).
  eexists. eexists. eexists. split.
  { apply upsert_creates_on; [exact Hsrc | exact (no_overlay_ids _ Hfresh)]. }
  rewrite (clear_created fc0 MapGL.initial _ Hfresh). split.
  { apply upsert_creates_on; [exact Hsrc | exact (no_overlay_ids _ Hfresh)]. }
  split.
  { apply (upsert_updates fc1 fc2); [apply lookup_insert_eq|].
    apply created_painted. exact Hlay. }
  split; [apply lookup_insert_eq|].
  repeat split.
Qed.

(** X10.  Hiding the slope layer and showing it again registers the listeners a
    second time: after upsert, clear and upsert the overlay has its source
    and its two layers once, and each of its three listeners twice. *)
Theorem reupsert_duplicates_listeners (fc1 fc2 : FeatureCollection) (m : MapGL.t) :
  no_slope_overlay m ->
  exists m1 m2,
    upsert_slope_cells fc1 m = JS.Ok m1
    /\ upsert_slope_cells fc2 (clear_slope_cells m1) = JS.Ok m2
    /\ MapGL.getSource "slope-cells" m2 = Some (GeoJSON fc2)
    /\ slope_layers m2 = [slope_fill_layer; slope_outline_layer]
    /\ slope_listeners m2 = slope_handlers ++ slope_handlers.
Proof.
  intros Hfresh. pose proof Hfresh as (Hsrc & Hlay & Hlis).
  eexists. eexists. split.
  { apply upsert_creates_on; [exact Hsrc | apply no_overlay_ids; exact Hfresh]. }
  rewrite (clear_created fc1 m _ Hfresh). split.
  { apply upsert_creates_on; [exact Hsrc | exact (no_overlay_ids m Hfresh)]. }
  split; [apply lookup_insert_eq|]. split.
  - unfold slope_layers. cbn [MapGL.layers].
    rewrite !List.filter_app, filter_Forall_false; [reflexivity|].
    eapply Forall_impl; [exact Hlay|]. intros l (_ & _ & H3).
    unfold MapGL.uses. apply bool_decide_eq_false. exact H3.
  - unfold slope_listeners. cbn [MapGL.listeners].
    rewrite !List.filter_app, filter_Forall_false; [reflexivity|].
    eapply Forall_impl; [exact Hlis|]. intros h H.
    apply bool_decide_eq_false. exact H.
Qed.

Lemma reupsert_duplicates_listeners_witness :
  exists m1 m2,
    upsert_slope_cells (mkFC "FeatureCollection" []) MapGL.initial = JS.Ok m1
    /\ upsert_slope_cells (mkFC "FeatureCollection" []) (clear_slope_cells m1)
       = JS.Ok m2
    /\ length (slope_listeners m2) = 6%nat.
Proof.
  destruct (reupsert_duplicates_listeners (mkFC "FeatureCollection" [])
              (mkFC "FeatureCollection" []) MapGL.initial)
    as (m1 & m2 & H1 & H2 & _ & _ & Hh).
  - split; [reflexivity|]. split; repeat constructor; discriminate.
  - exists m1, m2. split; [exact H1|]. split; [exact H2|]. rewrite Hh. reflexivity.
Defined.

(** X11.  An upsert with the data the overlay already shows changes nothing:
    the state after the first upsert is a fixed point of the second. *)
Theorem upsert_same_data_noop (fc : FeatureCollection) (m : MapGL.t) :
  no_slope_overlay m ->
  exists m1,
    upsert_slope_cells fc m = JS.Ok m1 /\ upsert_slope_cells fc m1 = JS.Ok m1.
Proof.
  intros Hfresh. pose proof Hfresh as (Hsrc & Hlay & Hlis).
  eexists. split; [apply (upsert_creates fc m Hfresh)|].
  rewrite (upsert_updates fc fc).
  - unfold with_data. cbn [MapGL.layers MapGL.sources MapGL.listeners].
    rewrite insert_insert_eq. reflexivity.
  - apply lookup_insert_eq.
  - apply created_painted. exact Hlay.
Qed.

Lemma upsert_same_data_noop_witness :
  exists m1,
    upsert_slope_cells (mkFC "FeatureCollection" []) MapGL.initial = JS.Ok m1
    /\ upsert_slope_cells (mkFC "FeatureCollection" []) m1 = JS.Ok m1.
Proof.
  apply (upsert_same_data_noop (mkFC "FeatureCollection" []) MapGL.initial).
  split; [reflexivity|]. split; repeat constructor; discriminate.
Defined.

(** X12.  Clearing a map that has no slope overlay is the identity. *)
Theorem clear_without_overlay (m : MapGL.t) :
  no_slope_overlay m -> clear_slope_cells m = m.
Proof.
  intros (Hsrc & Hlay & _). unfold clear_slope_cells.
  rewrite !removeLayer_guard. destruct m as [srcs lays hs].
  unfold MapGL.getSource, MapGL.removeLayer in *.
  cbn [MapGL.layers MapGL.sources MapGL.listeners] in *. rewrite Hsrc.
  f_equal. rewrite !filter_Forall_true; [reflexivity| |].
  - eapply Forall_impl; [exact Hlay|]. intros l (H1 & _ & _).
    unfold MapGL.has_id. rewrite bool_decide_eq_false_2 by exact H1. reflexivity.
  - rewrite filter_Forall_true.
    + eapply Forall_impl; [exact Hlay|]. intros l (_ & H2 & _).
      unfold MapGL.has_id. rewrite bool_decide_eq_false_2 by exact H2. reflexivity.
    + eapply Forall_impl; [exact Hlay|]. intros l (H1 & _ & _).
      unfold MapGL.has_id. rewrite bool_decide_eq_false_2 by exact H1. reflexivity.
Qed.

Lemma clear_without_overlay_witness :
  clear_slope_cells MapGL.initial = MapGL.initial.
Proof.
  apply clear_without_overlay.
  split; [reflexivity|]. split; repeat constructor; discriminate.
Defined.

Lemma untouched_refl (m : MapGL.t) : untouched_elsewhere m m.
Proof.
  split; [reflexivity|]. split; [reflexivity|]. exists []. rewrite app_nil_r. reflexivity.
Qed.

Lemma untouched_trans (m1 m2 m3 : MapGL.t) :
  untouched_elsewhere m1 m2 -> untouched_elsewhere m2 m3 -> untouched_elsewhere m1 m3.
Proof.
  intros (S1 & L1 & e1 & H1) (S2 & L2 & e2 & H2). split; [|split].
  - intros id Hid. rewrite (S2 id Hid). apply (S1 id Hid).
  - rewrite L2. exact L1.
  - exists (e1 ++ e2). rewrite H2, H1, app_assoc. reflexivity.
Qed.

Lemma untouched_removeLayer (id : string) (m : MapGL.t) :
  id = "slope-cells" \/ id = "slope-cells-outline" ->
  untouched_elsewhere m (MapGL.removeLayer id m).
Proof.
  intros Hid. split; [reflexivity|]. split.
  - unfold MapGL.removeLayer. cbn [MapGL.layers].
    apply filter_filter_weaker. intros l Hl. unfold overlay_layer in Hl.
    apply negb_true_iff, orb_false_elim in Hl as [H1 H2].
    destruct Hid as [-> | ->]; [rewrite H1 | rewrite H2]; reflexivity.
  - exists []. rewrite app_nil_r. reflexivity.
Qed.

Lemma untouched_removeSource (m : MapGL.t) :
  untouched_elsewhere m (MapGL.removeSource "slope-cells" m).
Proof.
  unfold MapGL.removeSource.
  destruct (existsb (MapGL.uses "slope-cells") (MapGL.layers m));
    [apply untouched_refl|].
  split; [|split].
  - intros id Hid. cbn [MapGL.sources]. apply lookup_delete_ne. congruence.
  - reflexivity.
  - exists []. rewrite app_nil_r. reflexivity.
Qed.

Lemma untouched_clear (m : MapGL.t) : untouched_elsewhere m (clear_slope_cells m).
Proof.
  unfold clear_slope_cells. rewrite !removeLayer_guard.
  eapply untouched_trans; [apply (untouched_removeLayer "slope-cells"); left; reflexivity|].
  eapply untouched_trans;
    [apply (untouched_removeLayer "slope-cells-outline"); right; reflexivity|].
  destruct (MapGL.getSource "slope-cells" _);
    [apply untouched_removeSource | apply untouched_refl].
Qed.

Lemma untouched_addLayer (l : Layer.t) (m : MapGL.t) :
  overlay_layer l = true -> untouched_elsewhere m (MapGL.addLayer l m).
Proof.
  intros Hl. unfold MapGL.addLayer.
  destruct (existsb _ _); [apply untouched_refl|].
  destruct (MapGL.sources m !! Layer.source l); [|apply untouched_refl].
  split; [reflexivity|]. split.
  - cbn [MapGL.layers]. rewrite List.filter_app. simpl. rewrite Hl. simpl.
    apply app_nil_r.
  - exists []. rewrite app_nil_r. reflexivity.
Qed.

Lemma untouched_on (ev lay : string) (h : handler) (m : MapGL.t) :
  untouched_elsewhere m (MapGL.on ev lay h m).
Proof.
  split; [reflexivity|]. split; [reflexivity|]. eexists. reflexivity.
Qed.

Lemma untouched_setPaint (name : string) (v : paint_value) (m : MapGL.t) :
  untouched_elsewhere m (MapGL.setPaintProperty "slope-cells" name v m).
Proof.
  split; [reflexivity|]. split.
  - unfold MapGL.setPaintProperty. cbn [MapGL.layers].
    induction (MapGL.layers m) as [|l rest IH]; [reflexivity|]. simpl.
    destruct (MapGL.has_id "slope-cells" l) eqn:E.
    + assert (H1 : overlay_layer (Layer.set_paint name v l) = true).
      { unfold overlay_layer.
        change (MapGL.has_id "slope-cells" (Layer.set_paint name v l))
          with (MapGL.has_id "slope-cells" l).
        rewrite E. reflexivity. }
      assert (H2 : overlay_layer l = true)
        by (unfold overlay_layer; rewrite E; reflexivity).
      rewrite H1, H2. simpl. exact IH.
    + destruct (negb (overlay_layer l)); [f_equal|]; exact IH.
  - exists []. rewrite app_nil_r. reflexivity.
Qed.

Lemma untouched_upsert (fc : FeatureCollection) (m : MapGL.t) :
  MapGL.getSource "slope-cells" m <> Some Raster ->
  exists m', upsert_slope_cells fc m = JS.Ok m' /\ untouched_elsewhere m m'.
Proof.
  intros Hsrc. unfold upsert_slope_cells.
  destruct (MapGL.getSource "slope-cells" m) as [[|fc0]|] eqn:E; [congruence| |].
  - unfold MapGL.getSource in E. unfold MapGL.setData. rewrite E.
    cbn [mbind result_bind]. eexists. split; [reflexivity|].
    eapply untouched_trans; [|apply untouched_setPaint].
    split; [|split].
    + intros id Hid. cbn [MapGL.sources]. apply lookup_insert_ne. congruence.
    + reflexivity.
    + exists []. rewrite app_nil_r. reflexivity.
  - unfold MapGL.getSource in E. unfold MapGL.addSource. rewrite E.
    cbn [mbind result_bind]. eexists. split; [reflexivity|].
    eapply untouched_trans; [|apply untouched_on].
    eapply untouched_trans; [|apply untouched_on].
    eapply untouched_trans; [|apply untouched_on].
    eapply untouched_trans; [|apply untouched_addLayer; reflexivity].
    eapply untouched_trans; [|apply untouched_addLayer; reflexivity].
    split; [|split].
    + intros id Hid. cbn [MapGL.sources]. apply lookup_insert_ne. congruence.
    + reflexivity.
    + exists []. rewrite app_nil_r. reflexivity.
Qed.

Lemma tessellate_total (Number : string -> number) (slopeGrid : list row)
    (bboxStr : string) (grid_size : option number)
    (slopeRanges : option (list Range.t)) :
  all_arrays slopeGrid ->
  exists fs, tessellate Number slopeGrid bboxStr grid_size slopeRanges = JS.Ok fs.
Proof.
  intros Harr. unfold tessellate.
  edestruct rows_from_spec as (fs & Hrun & _); [exact Harr|].
  exists fs. exact Hrun.
Qed.

(** X8.  The slope effect keeps its hands off the rest of the map.  On any map,
    for any payload whose rows are arrays, it runs to completion, and the
    sources other than the slope source, the layers other than the two
    slope layers (and their order) and every listener registered before
    are as they were. *)
Theorem slope_effect_frame (Number : string -> number) (m : MapGL.t)
    (loaded : bool) (slopeData : option SlopeData)
    (slopeRanges : option (list Range.t)) :
  MapGL.getSource "slope-cells" m <> Some Raster ->
  (forall d g, slopeData = Some d -> payload_grid d = Some g -> all_arrays g) ->
  exists m',
    slope_effect Number (Some m) loaded slopeData slopeRanges = JS.Ok (Some m')
    /\ untouched_elsewhere m m'.
Proof.
  intros Hsrc Hrows. unfold slope_effect.
  destruct loaded; simpl negb; cbv iota;
    [|exists m; split; [reflexivity | apply untouched_refl]].
  destruct slopeData as [d|];
    [|eexists; split; [reflexivity | apply untouched_clear]].
  specialize (Hrows d). unfold payload_grid in Hrows.
  destruct (match slopes_percent d with Some g => Some g | None => slopes d end)
    as [g|]; [|exists m; split; [reflexivity | apply untouched_refl]].
  destruct (bbox d) as [b|]; [|exists m; split; [reflexivity | apply untouched_refl]].
  destruct (JS.truthy_str b); simpl negb; cbv iota;
    [|exists m; split; [reflexivity | apply untouched_refl]].
  destruct (tessellate_total Number g b (grid_size d) slopeRanges
              (Hrows g eq_refl eq_refl)) as (fs & Hfs).
  rewrite Hfs. cbn [mbind result_bind].
  destruct (untouched_upsert (mkFC "FeatureCollection" fs) m Hsrc) as (m' & Hup & Hfr).
  rewrite Hup. cbn [mbind result_bind]. exists m'. split; [reflexivity | exact Hfr].
Qed.

Lemma slope_effect_frame_witness :
  exists m',
    slope_effect sample_Number (Some MapGL.initial) true
      (Some (mkSlopeData (Some [Cells [Num 1; Num 80]]) None (Some "0,0,1,1") None))
      (Some DEFAULT_RANGES) = JS.Ok (Some m')
    /\ untouched_elsewhere MapGL.initial m'.
Proof.
  apply (slope_effect_frame sample_Number MapGL.initial true).
  - discriminate.
  - intros d g Hd Hg. injection Hd as <-. injection Hg as <-.
    repeat constructor; discriminate.
Defined.

(* ===================================================================== *)
(** ** Further properties: BoundingBoxDrawer *)
(* ===================================================================== *)

Lemma cleanup_settled (k : nat) (c : Canvas) :
  attached c = drawing_listeners k ->
  drawing_cleanup k c = mkCanvas true "" [].
Proof.
  intros H. unfold drawing_cleanup, removeEventListener. rewrite H.
  unfold drawing_listeners. repeat (simpl; rewrite ?Nat.eqb_refl). reflexivity.
Qed.

Lemma rerender_settled (run : nat) (ready drawingMode : bool)
    (st : Canvas * option nat) :
  settled st ->
  settled (rerender run ready drawingMode st)
  /\ snd (rerender run ready drawingMode st)
     = if ready && drawingMode then Some run else None.
Proof.
  intros Hst. unfold rerender.
  assert (Hc : match snd st with
               | Some k => drawing_cleanup k (fst st)
               | None => fst st
               end = mkCanvas true "" []).
  { unfold settled in Hst. destruct st as [c [k|]]; simpl in *.
    - apply cleanup_settled. apply Hst.
    - destruct c as [d cu a]. simpl in Hst. destruct Hst as (-> & -> & ->).
      reflexivity. }
  rewrite Hc. unfold drawing_effect.
  destruct ready, drawingMode; simpl; repeat split.
Qed.

(** X13.  Across any sequence of re-runs of the drawing effect the canvas never
    collects listeners: it holds the three listeners of the latest run
    exactly while drawing mode is on (with panning disabled and the
    crosshair cursor), and none otherwise (panning enabled, default
    cursor); the pending cleanup, run at teardown, restores the idle
    canvas. *)
Theorem drawing_lifecycle (deps : list (bool * bool)) (run : nat)
    (st : Canvas * option nat) :
  settled st ->
  settled (renders run deps st)
  /\ (forall ready drawingMode, last deps = Some (ready, drawingMode) ->
        is_Some (snd (renders run deps st)) <-> ready && drawingMode = true)
  /\ (forall k, snd (renders run deps st) = Some k ->
        drawing_cleanup k (fst (renders run deps st)) = mkCanvas true "" []).
Proof.
  revert run st. induction deps as [|[r d] rest IH]; intros run st Hst.
  - split; [exact Hst|]. split; [discriminate|].
    intros k Hk. apply cleanup_settled. unfold settled in Hst.
    simpl in Hk. rewrite Hk in Hst. apply Hst.
  - destruct (rerender_settled run r d st Hst) as [Hst' Hsnd].
    destruct (IH (S run) _ Hst') as (H1 & H2 & H3).
    simpl renders. split; [exact H1|]. split; [|exact H3].
    intros ready drawingMode Hlast.
    destruct rest as [|x rest'].
    + simpl in Hlast. injection Hlast as <- <-. simpl. rewrite Hsnd.
      destruct (r && d); split; intros H;
        first [reflexivity | eexists; reflexivity | discriminate
              | destruct H; discriminate].
    + apply H2. exact Hlast.
Qed.

Lemma drawing_lifecycle_witness :
  settled (renders 0 [(true, true); (true, true); (true, false)]
             (mkCanvas true "" [], None)).
Proof.
  apply (drawing_lifecycle [(true, true); (true, true); (true, false)] 0
           (mkCanvas true "" [], None)).
  repeat split.
Defined.



(** X15.  A release that commits a rectangle hands its bbox string to the
    application, which stores it and switches drawing mode off; a release
    that is discarded leaves the application state as it was, drawing mode
    still on.  Either way the session is cleared. *)
Theorem release_commit_disarms (toString : number -> string)
    (unproject : number * number -> LngLat) (e : MouseEvent) (s : LngLat)
    (app : App.state) :
  let p := unproject (offsetX e, offsetY e) in
  let committed :=
    JS.gt (JS.abs (JS.sub (lng p) (lng s))) (JS.round64 (1 # 1000))
    && JS.gt (JS.abs (JS.sub (lat p) (lat s))) (JS.round64 (1 # 1000)) in
  let after := release toString unproject e (Some s, app) in
  fst after = None
  /\ (committed = true ->
      App.drawingMode (snd after) = false
      /\ (exists bboxStr, App.slopeRectBbox (snd after) = Some bboxStr
            /\ snd (mouseup toString unproject true e (Some s)) = Some bboxStr)
      /\ App.slopeData (snd after) = App.slopeData app
      /\ App.slopeRanges (snd after) = App.slopeRanges app
      /\ App.layers (snd after) = App.layers app)
  /\ (committed = false -> snd after = app).
Proof.
  intros p committed after. subst after. unfold release, mouseup.
  cbn [fst snd]. fold p. rewrite !span_abs. fold committed.
  destruct committed; cbn [fst snd].
  - split; [reflexivity|]. split; [|discriminate]. intros _.
    split; [reflexivity|]. split; [|repeat split].
    eexists. split; reflexivity.
  - split; [reflexivity|]. split; [discriminate|]. reflexivity.
Qed.

Lemma release_commit_disarms_witness :
  App.drawingMode
    (snd (release sample_toString sample_unproject
            (mkMouseEvent (Num (- 69)) (Num (- 26)))
            (Some (mkLngLat (Num (- 70)) (Num (- 27))),
             App.handleStartDrawing App.initial))) = false.
Proof.
  apply (release_commit_disarms sample_toString sample_unproject
           (mkMouseEvent (Num (- 69)) (Num (- 26)))
           (mkLngLat (Num (- 70)) (Num (- 27)))
           (App.handleStartDrawing App.initial)).
  reflexivity.
Defined.

(* ===================================================================== *)
(** ** Further properties: RangeTable and SlopeLegend *)
(* ===================================================================== *)

Lemma delete_snoc {A} (l : list A) (x : A) : delete (length l) (l ++ [x]) = l.
Proof.
  rewrite delete_take_drop, take_app_length.
  rewrite drop_ge by (rewrite length_app; simpl; lia).
  apply app_nil_r.
Qed.

(** X17.  Adding a range and deleting it again gives the table back, as long as
    the table had at least two entries; on a shorter table the delete is
    refused and the added range stays. *)
Theorem add_then_delete (toString : number -> string) (ranges : list Range.t) :
  exists added,
    handleAddRange toString ranges = JS.Ok (Changed added)
    /\ ((2 <= length ranges)%nat ->
        handleDeleteRange added (length ranges) = JS.Ok (Changed ranges))
    /\ ((length ranges < 2)%nat ->
        handleDeleteRange added (length ranges) = JS.Ok NotCalled).
Proof.
  eexists. split; [reflexivity|]. split; intros Hlen.
  - unfold handleDeleteRange. rewrite length_app. simpl length.
    rewrite (proj2 (Nat.leb_gt (length ranges + 1) 2)) by lia.
    rewrite filter_index_delete. simpl. rewrite Nat.sub_0_r, delete_snoc.
    reflexivity.
  - unfold handleDeleteRange. rewrite length_app. simpl length.
    rewrite (proj2 (Nat.leb_le (length ranges + 1) 2)) by lia. reflexivity.
Qed.

Lemma add_then_delete_witness :
  exists added,
    handleAddRange sample_toString DEFAULT_RANGES = JS.Ok (Changed added)
    /\ handleDeleteRange added 7 = JS.Ok (Changed DEFAULT_RANGES).
Proof.
  destruct (add_then_delete sample_toString DEFAULT_RANGES) as (added & Ha & Hd & _).
  exists added. split; [exact Ha|]. apply Hd. simpl. lia.
Defined.

(** X18.  The label an edit stores is the text the legend shows for the edited
    range: after a change of [min] or of [max], the entry's [label] equals
    the legend's text computed from its new bounds. *)
Theorem edited_label_matches_legend (parseFloat : string -> number)
    (toString : number -> string) (ranges : list Range.t) (idx : nat)
    (val : string) :
  (idx < length ranges)%nat ->
  (exists updated r',
      handleRangeMinChange parseFloat toString ranges idx val = JS.Ok (Changed updated)
      /\ updated !! idx = Some r'
      /\ Range.label r' = legend_text toString r')
  /\ (exists updated r',
      handleRangeMaxChange parseFloat toString ranges idx val = JS.Ok (Changed updated)
      /\ updated !! idx = Some r'
      /\ Range.label r' = legend_text toString r').
Proof.
  intros Hidx. destruct (lookup_lt_is_Some_2 ranges idx Hidx) as [r Hr].
  unfold handleRangeMinChange, handleRangeMaxChange. rewrite Hr.
  split; eexists; eexists;
    (split; [reflexivity|]);
    (split; [apply list_lookup_insert_eq; exact Hidx | reflexivity]).
Qed.

Lemma edited_label_matches_legend_witness :
  exists updated r',
    handleRangeMinChange sample_parseFloat sample_toString DEFAULT_RANGES 2 "80"
    = JS.Ok (Changed updated)
    /\ updated !! 2%nat = Some r'
    /\ Range.label r' = legend_text sample_toString r'.
Proof.
  apply (proj1 (edited_label_matches_legend sample_parseFloat sample_toString
                  DEFAULT_RANGES 2 "80" ltac:(simpl; lia))).
Defined.

(** X19.  Editing the two bounds of an entry commutes: [min] then [max] and
    [max] then [min] end in the same table, label included. *)
Theorem bound_edits_commute (parseFloat : string -> number)
    (toString : number -> string) (ranges : list Range.t) (idx : nat)
    (a b : string) :
  (idx < length ranges)%nat ->
  exists t1 t2 t,
    handleRangeMinChange parseFloat toString ranges idx a = JS.Ok (Changed t1)
    /\ handleRangeMaxChange parseFloat toString t1 idx b = JS.Ok (Changed t)
    /\ handleRangeMaxChange parseFloat toString ranges idx b = JS.Ok (Changed t2)
    /\ handleRangeMinChange parseFloat toString t2 idx a = JS.Ok (Changed t).
Proof.
  intros Hidx. destruct (lookup_lt_is_Some_2 ranges idx Hidx) as [r Hr].
  unfold handleRangeMinChange, handleRangeMaxChange. rewrite Hr.
  eexists. eexists. eexists.
  split; [reflexivity|].
  rewrite list_lookup_insert_eq by exact Hidx.
  split; [reflexivity|]. split; [reflexivity|].
  rewrite list_lookup_insert_eq by exact Hidx.
  rewrite !list_insert_insert_eq. reflexivity.
Qed.

Lemma bound_edits_commute_witness :
  exists t1 t2 t,
    handleRangeMinChange sample_parseFloat sample_toString DEFAULT_RANGES 1 "4"
    = JS.Ok (Changed t1)
    /\ handleRangeMaxChange sample_parseFloat sample_toString t1 1 "6" = JS.Ok (Changed t)
    /\ handleRangeMaxChange sample_parseFloat sample_toString DEFAULT_RANGES 1 "6"
       = JS.Ok (Changed t2)
    /\ handleRangeMinChange sample_parseFloat sample_toString t2 1 "4" = JS.Ok (Changed t).
Proof.
  apply (bound_edits_commute sample_parseFloat sample_toString DEFAULT_RANGES 1
           "4" "6"). simpl. lia.
Defined.

(** X20.  A colour change touches nothing the classifier compares: the bounds
    and labels of all entries stay, the colours of the other entries stay,
    and entry [idx] gets the new colour. *)
Theorem color_change_keeps_bounds (ranges : list Range.t) (idx : nat)
    (newColor : string) :
  (idx < length ranges)%nat ->
  exists updated,
    handleRangeColorChange ranges idx newColor = JS.Ok (Changed updated)
    /\ (fun r => (Range.min r, Range.max r, Range.label r)) <$> updated
       = (fun r => (Range.min r, Range.max r, Range.label r)) <$> ranges
    /\ Range.color <$> updated = <[idx := newColor]> (Range.color <$> ranges).
Proof.
  intros Hidx. destruct (lookup_lt_is_Some_2 ranges idx Hidx) as [r Hr].
  unfold handleRangeColorChange. rewrite Hr.
  eexists. split; [reflexivity|]. split.
  - rewrite list_fmap_insert. apply list_insert_id.
    rewrite list_lookup_fmap, Hr. reflexivity.
  - rewrite list_fmap_insert. reflexivity.
Qed.

Lemma color_change_keeps_bounds_witness :
  exists updated,
    handleRangeColorChange DEFAULT_RANGES 0 "#000000" = JS.Ok (Changed updated)
    /\ Range.color <$> updated
       = <[0%nat := "#000000"]> (Range.color <$> DEFAULT_RANGES).
Proof.
  destruct (color_change_keeps_bounds DEFAULT_RANGES 0 "#000000")
    as (updated & Hrun & _ & Hcol).
  - simpl. lia.
  - exists updated. split; [exact Hrun | exact Hcol].
Defined.

(* ===================================================================== *)
(** ** Further properties: the application state and the [useApi] hook *)
(* ===================================================================== *)

(** X23.  A successful slope request always ends with its payload shown on the
    map, also when the slope layer had been switched off before; a failed
    request, or one without a rectangle, changes nothing. *)
Theorem generate_shows_payload (rectBbox : string) (ranges : list Range.t)
    (data : SlopeData) (st : App.state) :
  rectBbox <> "" ->
  App.shown_slopeData
    (App.handleGenerateSlope (Some rectBbox) ranges (Some data) st) = Some data
  /\ App.slopeRanges
       (App.handleGenerateSlope (Some rectBbox) ranges (Some data) st) = ranges
  /\ App.handleGenerateSlope (Some rectBbox) ranges None st = st
  /\ (forall response, App.handleGenerateSlope None ranges response st = st).
Proof.
  intros Hne. unfold App.handleGenerateSlope, App.shown_slopeData.
  destruct rectBbox; [contradiction|]. simpl.
  rewrite lookup_insert_eq. repeat split.
Qed.

Lemma generate_shows_payload_witness :
  App.shown_slopeData
    (App.handleGenerateSlope (Some "0,0,1,1") DEFAULT_RANGES
       (Some (mkSlopeData (Some []) None (Some "0,0,1,1") None))
       (App.handleToggleLayer "slope" App.initial))
  = Some (mkSlopeData (Some []) None (Some "0,0,1,1") None).
Proof.
  apply (generate_shows_payload "0,0,1,1" DEFAULT_RANGES
           (mkSlopeData (Some []) None (Some "0,0,1,1") None)
           (App.handleToggleLayer "slope" App.initial)).
  discriminate.
Defined.

Lemma use_api_run_app {D} (evs1 evs2 : list (UseApi.event D)) (s : UseApi.state D) :
  UseApi.run (evs1 ++ evs2) s = UseApi.run evs2 (UseApi.run evs1 s).
Proof. unfold UseApi.run. apply fold_left_app. Qed.

Lemma use_api_error_step {D} (ev : UseApi.event D) (s : UseApi.state D) :
  UseApi.error s <> Some "" -> UseApi.error (UseApi.step s ev) <> Some "".
Proof.
  intros Hs. destruct ev as [|[r|[[|c m]|]]|]; cbn; try discriminate. exact Hs.
Qed.

Lemma use_api_error_run {D} (evs : list (UseApi.event D)) (s : UseApi.state D) :
  UseApi.error s <> Some "" -> UseApi.error (UseApi.run evs s) <> Some "".
Proof.
  revert s. induction evs as [|ev evs IH]; intros s Hs; [exact Hs|].
  apply (IH (UseApi.step s ev)). apply use_api_error_step. exact Hs.
Qed.

Lemma use_api_data_kept {D} (evs : list (UseApi.event D)) (s : UseApi.state D) :
  forallb UseApi.keeps_data evs = true ->
  UseApi.data (UseApi.run evs s) = UseApi.data s.
Proof.
  revert s. induction evs as [|ev evs IH]; intros s H; [reflexivity|].
  cbn [forallb] in H. apply andb_prop in H as [Hev Hrest].
  change (UseApi.run (ev :: evs) s) with (UseApi.run evs (UseApi.step s ev)).
  rewrite (IH _ Hrest). destruct ev as [|[r|m]|]; (discriminate || reflexivity).
Qed.

Lemma use_api_error_kept {D} (evs : list (UseApi.event D)) (s : UseApi.state D) :
  forallb UseApi.success evs = true ->
  UseApi.error (UseApi.run evs s) = UseApi.error s.
Proof.
  revert s. induction evs as [|ev evs IH]; intros s H; [reflexivity|].
  cbn [forallb] in H. apply andb_prop in H as [Hev Hrest].
  change (UseApi.run (ev :: evs) s) with (UseApi.run evs (UseApi.step s ev)).
  rewrite (IH _ Hrest). destruct ev as [|[r|m]|]; (discriminate || reflexivity).
Qed.

(** X24.  Calls through the hook may overlap, and the hook keeps no count of
    them.  Over any interleaving of calls starting, calls settling and
    resets: the error is never the empty string; the hook is loading
    exactly when the last event was a call starting, so it stops as soon
    as any call settles; the data is the result of the latest success
    since the last reset; a failure stays shown through later successes,
    until a call starts or the hook is reset; and when a call settles
    right after it started, the error is empty exactly when it
    succeeded. *)
Theorem use_api_settles {D : Type} (before after : list (UseApi.event D))
    (s : UseApi.state D) :
  UseApi.error s <> Some "" ->
  UseApi.error (UseApi.run before s) <> Some ""
  /\ (forall ev, UseApi.loading (UseApi.run (before ++ [ev]) s) = UseApi.is_call ev)
  /\ (forall result, forallb UseApi.keeps_data after = true ->
        UseApi.data
          (UseApi.run (before ++ UseApi.Settled (UseApi.Resolved result) :: after) s)
        = Some result)
  /\ (forall message, forallb UseApi.success after = true ->
        UseApi.error
          (UseApi.run (before ++ UseApi.Settled (UseApi.Rejected message) :: after) s)
        = Some (JS.str_or message "Unknown error"))
  /\ (forall o,
        UseApi.error (UseApi.run (before ++ [UseApi.Called; UseApi.Settled o]) s) = None
        <-> exists result, o = UseApi.Resolved result).
Proof.
  intros Hs. split; [apply use_api_error_run; exact Hs|].
  split; [|split; [|split]].
  - intros ev. rewrite use_api_run_app.
    destruct ev as [|[r|m]|]; reflexivity.
  - intros result Hafter. rewrite use_api_run_app.
    change (UseApi.run (?e :: after) ?t) with (UseApi.run after (UseApi.step t e)).
    rewrite (use_api_data_kept after _ Hafter). reflexivity.
  - intros message Hafter. rewrite use_api_run_app.
    change (UseApi.run (?e :: after) ?t) with (UseApi.run after (UseApi.step t e)).
    rewrite (use_api_error_kept after _ Hafter). reflexivity.
  - intros o. rewrite use_api_run_app.
    destruct o as [r|m]; cbn; split.
    + intros _. exists r. reflexivity.
    + reflexivity.
    + discriminate.
    + intros [r Hr]. discriminate.
Qed.

(** Two overlapping calls, the first failing and the second succeeding
    after it: the hook ends with the result of the second and the error of
    the first.  And while the second is still pending the hook has
    stopped loading. *)
Lemma use_api_overlap :
  UseApi.run [UseApi.Called; UseApi.Called;
              UseApi.Settled (UseApi.Rejected (Some "boom"));
              UseApi.Settled (UseApi.Resolved 3%nat)] (UseApi.mk None false None)
  = UseApi.mk (Some 3%nat) false (Some "boom")
  /\ UseApi.loading
       (UseApi.run [UseApi.Called; UseApi.Called;
                    UseApi.Settled (UseApi.Rejected (Some "boom"))]
          (UseApi.mk (D := nat) None false None)) = false.
Proof. split; reflexivity. Qed.

(** [reset] forgets everything, whatever happened before. *)
Lemma use_api_reset {D : Type} (s : UseApi.state D) :
  UseApi.reset s = UseApi.mk None false None.
Proof. reflexivity. Qed.

(* ===================================================================== *)
(** ** Further properties: IntersectionPanel *)
(* ===================================================================== *)

(** X25.  Every card has a name: the lower-case property if it is a non-empty
    string, else the upper-case one, else a numbered placeholder; in no
    case the empty string. *)
Theorem card_name_never_empty (toString : number -> string)
    (nombre NOMBRE : option string) (i : nat) :
  card_name toString nombre NOMBRE i <> ""
  /\ (forall s, nombre = Some s -> s <> "" ->
        card_name toString nombre NOMBRE i = s)
  /\ (forall s, (nombre = None \/ nombre = Some "") -> NOMBRE = Some s -> s <> "" ->
        card_name toString nombre NOMBRE i = s).
Proof.
  unfold card_name. split; [|split].
  - destruct nombre as [[|c s]|], NOMBRE as [[|c' s']|]; simpl; discriminate.
  - intros s -> Hs. destruct s; [contradiction | reflexivity].
  - intros s Hn -> Hs. destruct s; [contradiction|].
    destruct Hn as [-> | ->]; reflexivity.
Qed.

(* ===================================================================== *)
(** ** Further properties: how the parts agree *)
(* ===================================================================== *)

Lemma rows_from_shape (minx miny dx dy : number) (ranges1 ranges2 : list Range.t)
    (slopeGrid : list row) :
  forall r fs1,
    rows_from minx miny dx dy ranges1 r slopeGrid = JS.Ok fs1 ->
    exists fs2,
      rows_from minx miny dx dy ranges2 r slopeGrid = JS.Ok fs2
      /\ shape <$> fs1 = shape <$> fs2.
Proof.
  induction slopeGrid as [|rw rest IH]; intros r fs1 Hrun.
  - injection Hrun as <-. exists []. split; reflexivity.
  - destruct rw as [vals|]; [|discriminate]. simpl in Hrun.
    destruct (rows_from minx miny dx dy ranges1 (S r) rest) as [fs|err] eqn:E;
      [|discriminate].
    injection Hrun as <-.
    destruct (IH (S r) fs E) as (fs2 & Hrun2 & Hshape).
    exists (row_cells minx miny dx dy ranges2 r vals ++ fs2).
    split; [simpl; rewrite Hrun2; reflexivity|].
    rewrite !fmap_app, Hshape. f_equal.
    unfold row_cells. rewrite !fmap_imap. reflexivity.
Qed.

(** X22.  Editing the range table recolours the cells and does nothing else:
    two tessellations of the same payload under different tables yield the
    same polygons with the same slopes, in the same order. *)
Theorem reclassify_keeps_shapes (Number : string -> number)
    (slopeGrid : list row) (bboxStr : string) (grid_size : option number)
    (ranges1 ranges2 : option (list Range.t)) :
  all_arrays slopeGrid ->
  exists fs1 fs2,
    tessellate Number slopeGrid bboxStr grid_size ranges1 = JS.Ok fs1
    /\ tessellate Number slopeGrid bboxStr grid_size ranges2 = JS.Ok fs2
    /\ shape <$> fs1 = shape <$> fs2.
Proof.
  intros Harr.
  destruct (tessellate_total Number slopeGrid bboxStr grid_size ranges1 Harr)
    as (fs1 & H1).
  unfold tessellate in *.
  destruct (rows_from_shape _ _ _ _ _ (default [] ranges2) _ _ _ H1)
    as (fs2 & H2 & Hs).
  exists fs1, fs2. split; [exact H1|]. split; [exact H2 | exact Hs].
Qed.

Lemma reclassify_keeps_shapes_witness :
  exists fs1 fs2,
    tessellate sample_Number [Cells [Num 1; Num 80]] "0,0,1,1" None
      (Some DEFAULT_RANGES) = JS.Ok fs1
    /\ tessellate sample_Number [Cells [Num 1; Num 80]] "0,0,1,1" None None
       = JS.Ok fs2
    /\ shape <$> fs1 = shape <$> fs2.
Proof.
  apply (reclassify_keeps_shapes sample_Number [Cells [Num 1; Num 80]] "0,0,1,1"
           None (Some DEFAULT_RANGES) None).
  repeat constructor; discriminate.
Defined.

(** X21.  The legend and the map agree.  For an ascending table whose last
    colour is not empty, the legend lists one entry per range, and the
    swatch of entry [i] is the colour the classifier gives to every value
    of range [i]: to the values in [[min, max)] for a range that is not the
    last, and to every value from [min] upwards for the last. *)
Theorem legend_agrees_with_map (toString : number -> string)
    (ranges : list Range.t) (i : nat) (r : Range.t) (v : number) :
  ascending ranges = true ->
  (forall l, last ranges = Some l -> Range.color l <> "") ->
  ranges !! i = Some r ->
  JS.ge v (Range.min r) = true ->
  JS.lt v (Range.max r) = true \/ S i = length ranges ->
  exists entries,
    SlopeLegend toString (Some ranges) true = Some entries
    /\ length entries = length ranges
    /\ entries !! i = Some (classify v ranges, legend_text toString r).
Proof.
  intros Hasc Hcol Hi Hge Hcase.
  assert (Hlen : (i < length ranges)%nat) by (eapply lookup_lt_Some; exact Hi).
  exists ((fun r => (Range.color r, legend_text toString r)) <$> ranges).
  split; [|split].
  - unfold SlopeLegend. simpl negb. cbv iota.
    rewrite (proj2 (Nat.eqb_neq (length ranges) 0)) by lia. reflexivity.
  - apply length_fmap.
  - rewrite list_lookup_fmap, Hi. simpl. f_equal. f_equal. symmetry.
    destruct (Nat.eq_dec (S i) (length ranges)) as [Hlast|Hnot].
    + assert (Hl : last ranges = Some r).
      { rewrite last_lookup. rewrite <- Hlast. exact Hi. }
      unfold classify, above_last. rewrite Hl, Hge. simpl.
      specialize (Hcol r Hl). destruct (Range.color r); [contradiction | reflexivity].
    + destruct Hcase as [Hlt|Hcase]; [|contradiction].
      unfold classify.
      assert (Ha : above_last v ranges = false).
      { unfold above_last. rewrite last_lookup.
        destruct (ranges !! Nat.pred (length ranges)) as [l|] eqn:El; [|reflexivity].
        apply (ge_lt_false v (Range.max r) (Range.min l) Hlt).
        apply (ascending_lookup ranges i (Nat.pred (length ranges)) r l);
          [assumption | lia | assumption | assumption]. }
      rewrite Ha. apply (walk_within v ranges "#888888" i r Hi).
      * unfold within. rewrite Hge, Hlt. reflexivity.
      * intros j rj Hj Hl. unfold within.
        rewrite (le_ge_lt_false v (Range.max rj) (Range.min r)).
        -- apply andb_false_r.
        -- eapply ascending_lookup; eassumption.
        -- exact Hge.
Qed.

Lemma legend_agrees_with_map_witness :
  exists entries,
    SlopeLegend sample_toString (Some DEFAULT_RANGES) true = Some entries
    /\ entries !! 4%nat = Some (classify (Num 30) DEFAULT_RANGES, "25 – 50%").
Proof.
  destruct (legend_agrees_with_map sample_toString DEFAULT_RANGES 4
              (Range.mk (Num 25) (Num 50) "#ffff00" "25 – 50%") (Num 30))
    as (entries & Hleg & _ & Hentry).
  - reflexivity.
  - intros l Hl. injection Hl as <-. discriminate.
  - reflexivity.
  - reflexivity.
  - left. reflexivity.
  - exists entries. split; [exact Hleg | exact Hentry].
Defined.

(** X16.  A press and release at the same point commits nothing, whatever the
    point: a plain click never produces a rectangle. *)
Theorem click_commits_nothing (toString : number -> string)
    (unproject : number * number -> LngLat) (cb : bool) (e : MouseEvent)
    (previous : option LngLat) :
  mouseup toString unproject cb e (mousedown unproject e previous) = (None, None).
Proof.
  unfold mousedown, mouseup.
  assert (Hzero : forall a : number,
            JS.gt (JS.abs (JS.sub (JS.max a a) (JS.min a a))) (JS.round64 (1 # 1000)) = false).
  { intros a. rewrite span_abs. destruct a as [| | |a]; try reflexivity.
    rewrite (sub_same a a) by reflexivity. apply gt_zero. reflexivity. }
  rewrite Hzero. reflexivity.
Qed.

Lemma use_api_settles_witness :
  UseApi.data
    (UseApi.run [UseApi.Called; UseApi.Called;
                 UseApi.Settled (UseApi.Rejected (Some "boom"));
                 UseApi.Settled (UseApi.Resolved 3%nat)]
       (UseApi.mk None false None)) = Some 3%nat
  /\ UseApi.error
       (UseApi.run [UseApi.Called; UseApi.Called;
                    UseApi.Settled (UseApi.Rejected (Some "boom"));
                    UseApi.Settled (UseApi.Resolved 3%nat)]
          (UseApi.mk None false None)) = Some "boom".
Proof.
  split.
  - destruct (use_api_settles
                [UseApi.Called; UseApi.Called;
                 UseApi.Settled (UseApi.Rejected (Some "boom"))] []
                (UseApi.mk (D := nat) None false None)) as (_ & _ & Hdata & _).
    + discriminate.
    + apply (Hdata 3%nat). reflexivity.
  - destruct (use_api_settles
                [UseApi.Called; UseApi.Called]
                [UseApi.Settled (UseApi.Resolved 3%nat)]
                (UseApi.mk None false None)) as (_ & _ & _ & Herr & _).
    + discriminate.
    + apply (Herr (Some "boom")). reflexivity.
Defined.

Lemma card_name_never_empty_witness :
  card_name sample_toString (Some "") (Some "MINA SUR") 2 = "MINA SUR".
Proof.
  apply (proj2 (proj2 (card_name_never_empty sample_toString (Some "")
                         (Some "MINA SUR") 2)) "MINA SUR").
  - right. reflexivity.
  - reflexivity.
  - discriminate.
Defined.
